(** * Package sixteen: a 16-segment display drawn on a canvas

    A shallow embedding of [draw/segdisp/sixteen/sixteen.go] and the
    properties of its segment state, character table, sizing and drawing
    order.

    Conventions of the embedding.
    - A Go [int] is a [Z] kept in the 64-bit two's complement range: every
      arithmetic operation of the source is followed by [GoInt.wrap].
    - A Go [rune] and a [Segment] are plain [Z] values: both are integer
      types in the source, and out-of-range values are legal inputs.
    - A Go [map] is a [gmap]; reading an absent key gives the zero value.
    - A Go [string] is a list of bytes; [for _, r := range s] walks the
      runes that [utf8.runes] decodes from it.
    - A method with a pointer receiver that returns an [error] becomes a
      function from the receiver to the new receiver and an [option error]. *)

From Stdlib Require Import ZArith Lia Bool Ascii.
From stdpp Require Import gmap list strings.

Local Open Scope Z_scope.

(** ** Go integers *)

Module GoInt.

(** Reduction into the range of a 64-bit signed [int]. *)
Definition wrap (z : Z) : Z := (z + 2 ^ 63) mod 2 ^ 64 - 2 ^ 63.

Definition add (a b : Z) : Z := wrap (a + b).
Definition sub (a b : Z) : Z := wrap (a - b).
Definition mul (a b : Z) : Z := wrap (a * b).
(** Go's [/] on integers truncates toward zero. *)
Definition quo (a b : Z) : Z := wrap (Z.quot a b).

Definition in_range (z : Z) : Prop := - 2 ^ 63 <= z < 2 ^ 63.

(** [float64(n)] for an [int] n: the nearest value with a 53-bit
    significand, ties to even.  The value is always an integer. *)
Definition to_float64 (n : Z) : Z :=
  let a := Z.abs n in
  if a <? 2 ^ 53 then n
  else
    let e := Z.log2 a - 52 in
    let q := Z.shiftr a e in
    let r := a mod 2 ^ e in
    let half := 2 ^ (e - 1) in
    let q' := if (half <? r) || ((r =? half) && Z.odd q) then q + 1 else q in
    Z.sgn n * (q' * 2 ^ e).

(** [int(math.Ceil(float64(n) / k))] for k a power of two: the division
    is exact in binary floating point, so only the conversion rounds. *)
Definition ceil_div_float64 (n k : Z) : Z := - ((- to_float64 n) / k).

End GoInt.

(** ** Package image: points and rectangles *)

Module image.

Record Point := mkPoint { X : Z; Y : Z }.

Record Rectangle := mkRectangle { Min : Point; Max : Point }.

Definition ZP : Point := mkPoint 0 0.
Definition ZR : Rectangle := mkRectangle ZP ZP.

(** [image.Rect]: the corner coordinates are swapped where needed so
    that the result is well formed. *)
Definition Rect (x0 y0 x1 y1 : Z) : Rectangle :=
  let '(x0, x1) := if x1 <? x0 then (x1, x0) else (x0, x1) in
  let '(y0, y1) := if y1 <? y0 then (y1, y0) else (y0, y1) in
  mkRectangle (mkPoint x0 y0) (mkPoint x1 y1).

Definition Dx (r : Rectangle) : Z := GoInt.sub (X (Max r)) (X (Min r)).
Definition Dy (r : Rectangle) : Z := GoInt.sub (Y (Max r)) (Y (Min r)).

End image.

Import image.

(** ** Package braille: resolution of the braille canvas *)

Module braille.

(** Modelled from the spec: the per-axis multipliers [braille.ColMult] and
    [braille.RowMult] of package braille, which is outside this file's
    sources.  Every character cell holds a grid of dots, two columns by four
    rows. *)
Definition ColMult : Z := 2.
Definition RowMult : Z := 4.

End braille.

(** ** Package area: aspect ratios *)

Module area.

(** Modelled from the spec: [area.WithRatio] of package area, which is
    outside this file's sources.  It returns the largest sub-rectangle with
    the same origin whose width and height are in the requested ratio: the
    ratio scaled by the largest whole factor that fits both axes. *)
Definition WithRatio (ar : Rectangle) (ratio : Point) : Rectangle :=
  let wFact := GoInt.quo (Dx ar) (X ratio) in
  let hFact := GoInt.quo (Dy ar) (Y ratio) in
  let fact := if wFact <? hFact then wFact else hFact in
  Rect (X (Min ar)) (Y (Min ar))
       (GoInt.add (GoInt.mul (X ratio) fact) (X (Min ar)))
       (GoInt.add (GoInt.mul (Y ratio) fact) (Y (Min ar))).

End area.

(** ** Errors *)

(** The errors of the package are formatted strings in the source; the
    embedding keeps the data each message is formatted from. *)
Inductive error : Type :=
  | ErrUnknownSegment (s : Z)
      (* "unknown segment %v(%d)" *)
  | ErrUnsupportedCharacter (c : Z)
      (* "display doesn't support character %q rune(%v)" *)
  | ErrAreaTooSmall (cellArea : Rectangle) (cols rows : Z)
      (* "cell area %v is too small to draw the segment display, ..." *)
  | ErrRequired (e : error)
      (* "Required => %v" *)
  | ErrBrailleNew (e : error)
      (* "braille.New => %v" *)
  | ErrSegmentHV (s : Z) (e : error)
      (* "failed to draw segment %v, segment.HV => %v" *)
  | ErrSegmentDiagonal (s : Z) (e : error)
      (* "failed to draw segment %v, segment.Diagonal => %v" *)
  | ErrExternal (msg : string).
      (* an error made by a collaborator outside this package *)

(** ** Sizing *)

Definition MinCols : Z := 6.
Definition MinRows : Z := 5.

Definition aspectRatio : Point := mkPoint 3 5.

Definition Required (cellArea : Rectangle) : Rectangle * option error :=
  let cols := Dx cellArea in
  let rows := Dy cellArea in
  if (cols <? MinCols) || (rows <? MinRows) then
    (ZR, Some (ErrAreaTooSmall cellArea cols rows))
  else
    let bcAr := Rect (X (Min cellArea)) (Y (Min cellArea))
                     (GoInt.mul (X (Max cellArea)) braille.ColMult)
                     (GoInt.mul (Y (Max cellArea)) braille.RowMult) in
    let bcArAdj := area.WithRatio bcAr aspectRatio in
    let needCols := GoInt.ceil_div_float64 (Dx bcArAdj) braille.ColMult in
    let needRows := GoInt.ceil_div_float64 (Dy bcArAdj) braille.RowMult in
    let needAr := Rect (X (Min cellArea)) (Y (Min cellArea))
                       (GoInt.add (X (Min cellArea)) needCols)
                       (GoInt.add (Y (Min cellArea)) needRows) in
    (needAr, None).

(** The factor by which the ratio 3:5 is scaled for an area of [w] by [h]
    cells whose origin is the zero point. *)
Definition ratioFactor (w h : Z) : Z := Z.min (2 * w / 3) (4 * h / 5).

(** ** Segments *)

(** [type Segment int]: the constants are numbered by [iota], from the
    unknown sentinel at zero to the bound [segmentMax]. *)
Abbreviation Segment := Z (only parsing).

Definition segmentUnknown : Segment := 0.
Definition A1 : Segment := 1.
Definition A2 : Segment := 2.
Definition B : Segment := 3.
Definition C : Segment := 4.
Definition D1 : Segment := 5.
Definition D2 : Segment := 6.
Definition E : Segment := 7.
Definition F : Segment := 8.
Definition G1 : Segment := 9.
Definition G2 : Segment := 10.
Definition H : Segment := 11.
Definition J : Segment := 12.
Definition K : Segment := 13.
Definition L : Segment := 14.
Definition M : Segment := 15.
Definition N : Segment := 16.
Definition segmentMax : Segment := 17.

(** The guard shared by the three segment mutators:
    [s <= segmentUnknown || s >= segmentMax]. *)
Definition invalidSegment (s : Segment) : bool :=
  (s <=? segmentUnknown) || (segmentMax <=? s).

(** ** The character table *)

(** A rune literal of the source. *)
Definition rune (c : ascii) : Z := Z.of_N (N_of_ascii c).

(** The entries of the [characterSegments] literal, in source order.  The
    double quote is written by its code point. *)
Definition characterSegmentsEntries : list (Z * list Segment) :=
  [ (rune " ", []);
    (rune "!", [B; C]);
    (34, [J; B]);
    (rune "#", [J; B; G1; G2; M; C; D1; D2]);
    (rune "$", [A1; A2; F; J; G1; G2; M; C; D1; D2]);
    (rune "%", [A1; F; J; K; G1; G2; N; M; C; D2]);
    (rune "&", [A1; H; J; G1; E; L; D1; D2]);
    (rune "'", [J]);
    (rune "(", [K; L]);
    (rune ")", [H; N]);
    (rune "*", [H; J; K; G1; G2; N; M; L]);
    (rune "+", [J; G1; G2; M]);
    (rune ",", [N]);
    (rune "-", [G1; G2]);
    (rune "/", [N; K]);

    (rune "0", [A1; A2; F; K; B; E; N; C; D1; D2]);
    (rune "1", [K; B; C]);
    (rune "2", [A1; A2; B; G1; G2; E; D1; D2]);
    (rune "3", [A1; A2; B; G2; C; D1; D2]);
    (rune "4", [F; B; G1; G2; C]);
    (rune "5", [A1; A2; F; G1; L; D1; D2]);
    (rune "6", [A1; A2; F; G1; G2; E; C; D1; D2]);
    (rune "7", [A1; A2; B; C]);
    (rune "8", [A1; A2; F; B; G1; G2; E; C; D1; D2]);
    (rune "9", [A1; A2; F; B; G1; G2; C; D1; D2]);

    (rune ":", [J; M]);
    (rune ";", [J; N]);
    (rune "<", [K; G1; L]);
    (rune "=", [G1; G2; D1; D2]);
    (rune ">", [H; G2; N]);
    (rune "?", [A1; A2; B; G2; M]);
    (rune "@", [A1; A2; F; J; B; G2; E; D1; D2]);

    (rune "A", [A1; A2; F; B; G1; G2; E; C]);
    (rune "B", [A1; A2; J; B; G2; M; C; D1; D2]);
    (rune "C", [A1; A2; F; E; D1; D2]);
    (rune "D", [A1; A2; J; B; M; C; D1; D2]);
    (rune "E", [A1; A2; F; G1; E; D1; D2]);
    (rune "F", [A1; A2; F; G1; E]);
    (rune "G", [A1; A2; F; G2; E; C; D1; D2]);
    (rune "H", [F; B; G1; G2; E; C]);
    (rune "I", [A1; A2; J; M; D1; D2]);
    (rune "J", [B; E; C; D1; D2]);
    (rune "K", [F; K; G1; E; L]);
    (rune "L", [F; E; D1; D2]);
    (rune "M", [F; H; K; B; E; C]);
    (rune "N", [F; H; B; E; L; C]);
    (rune "O", [A1; A2; F; B; E; C; D1; D2]);
    (rune "P", [A1; A2; F; B; G1; G2; E]);
    (rune "Q", [A1; A2; F; B; E; L; C; D1; D2]);
    (rune "R", [A1; A2; F; B; G1; G2; E; L]);
    (rune "S", [A1; A2; F; G1; G2; C; D1; D2]);
    (rune "T", [A1; A2; J; M]);
    (rune "U", [F; B; E; C; D1; D2]);
    (rune "V", [F; K; E; N]);
    (rune "W", [F; E; N; L; C; B]);
    (rune "X", [H; K; N; L]);
    (rune "Y", [F; B; G1; G2; C; D1; D2]);
    (rune "Z", [A1; A2; K; N; D1; D2]);

    (rune "[", [A2; J; M; D2]);
    (rune "\", [H; L]);
    (rune "]", [A1; J; M; D1]);
    (rune "^", [N; L]);
    (rune "_", [D1; D2]);
    (rune "`", [H]);

    (rune "a", [G1; E; M; D1; D2]);
    (rune "b", [F; G1; E; M; D1]);
    (rune "c", [G1; E; D1]);
    (rune "d", [B; G2; M; C; D2]);
    (rune "e", [G1; E; N; D1]);
    (rune "f", [A2; J; G1; G2; M]);
    (rune "g", [A1; F; J; G1; M; D1]);
    (rune "h", [F; G1; E; M]);
    (rune "i", [M]);
    (rune "j", [J; E; M; D1]);
    (rune "k", [J; K; M; L]);
    (rune "l", [F; E]);
    (rune "m", [G1; G2; E; M; C]);
    (rune "n", [G1; E; M]);
    (rune "o", [G1; E; M; D1]);
    (rune "p", [A1; F; J; G1; E]);
    (rune "q", [A1; F; J; G1; M]);
    (rune "r", [G1; E]);
    (rune "s", [A1; F; G1; M; D1]);
    (rune "t", [F; G1; E; D1]);
    (rune "u", [E; M; D1]);
    (rune "v", [E; N]);
    (rune "w", [E; N; L; C]);
    (rune "x", [H; K; N; L]);
    (rune "y", [J; B; G2; C; D2]);
    (rune "z", [G1; N; D1]);

    (rune "{", [A2; J; G1; M; D2]);
    (rune "|", [J; M]);
    (rune "}", [A1; J; G2; M; D1]);
    (rune "~", [K; G1; G2; N]) ].

Definition characterSegments : gmap Z (list Segment) :=
  list_to_map characterSegmentsEntries.

(** ** The display and its segment state *)

Section Display.

(** [cell.Option], the styling of a terminal cell, belongs to another
    package and stays abstract. *)
Context {CellOption : Type}.

(** A [Display] is one made by [New]: its map of segments is allocated,
    so that writing to it never panics. *)
Record Display := mkDisplay {
  segments : gmap Z bool;
  cellOpts : list CellOption
}.

(** [d.segments[s]]: an absent key reads as [false]. *)
Definition lit (d : Display) (s : Segment) : bool :=
  default false (segments d !! s).

(** The only [Option] the package can build is [CellOpts]. *)
Inductive Option : Type :=
  | CellOpts (cOpts : list CellOption).

Definition set (o : Option) (d : Display) : Display :=
  match o with
  | CellOpts cOpts => mkDisplay (segments d) cOpts
  end.

(** [for _, opt := range opts { opt.set(d) }] *)
Definition applyOptions (opts : list Option) (d : Display) : Display :=
  fold_left (fun d o => set o d) opts d.

Definition New (opts : list Option) : Display :=
  applyOptions opts (mkDisplay ∅ []).

Definition Clear (opts : list Option) (d : Display) : Display :=
  let d := applyOptions opts d in
  mkDisplay ∅ (cellOpts d).

Definition SetSegment (s : Segment) (d : Display) : Display * option error :=
  if invalidSegment s then (d, Some (ErrUnknownSegment s))
  else (mkDisplay (<[s := true]> (segments d)) (cellOpts d), None).

Definition ClearSegment (s : Segment) (d : Display) : Display * option error :=
  if invalidSegment s then (d, Some (ErrUnknownSegment s))
  else (mkDisplay (<[s := false]> (segments d)) (cellOpts d), None).

Definition ToggleSegment (s : Segment) (d : Display) : Display * option error :=
  if invalidSegment s then (d, Some (ErrUnknownSegment s))
  else if lit d s
       then (mkDisplay (<[s := false]> (segments d)) (cellOpts d), None)
       else (mkDisplay (<[s := true]> (segments d)) (cellOpts d), None).

(** The loop of [SetCharacter]: it stops at the first segment that
    [SetSegment] refuses. *)
Fixpoint setSegments (seg : list Segment) (d : Display) : Display * option error :=
  match seg with
  | [] => (d, None)
  | s :: rest =>
      match SetSegment s d with
      | (d', Some err) => (d', Some err)
      | (d', None) => setSegments rest d'
      end
  end.

Definition SetCharacter (c : Z) (d : Display) : Display * option error :=
  match characterSegments !! c with
  | None => (d, Some (ErrUnsupportedCharacter c))
  | Some seg => setSegments seg d
  end.

End Display.

Arguments Display : clear implicits.
Arguments Option : clear implicits.

(** ** Go strings: UTF-8 *)

Module utf8.

Definition RuneError : Z := 65533.
Definition MaxRune : Z := 1114111.

Definition byte_to_Z (b : Byte.byte) : Z := Z.of_N (Byte.to_N b).

(** [byte(x)]: the low eight bits. *)
Definition byte_of_Z (z : Z) : Byte.byte :=
  default Byte.x00 (Byte.of_N (Z.to_N (z mod 256))).

(** The table [first] with [acceptRanges]: for a leading byte, the length
    of the sequence and the bounds of its second byte; [None] for a byte
    that cannot start a multi-byte sequence. *)
Definition first (p0 : Z) : option (Z * Z * Z) :=
  if (194 <=? p0) && (p0 <=? 223) then Some (2, 128, 191)
  else if p0 =? 224 then Some (3, 160, 191)
  else if (225 <=? p0) && (p0 <=? 236) then Some (3, 128, 191)
  else if p0 =? 237 then Some (3, 128, 159)
  else if (238 <=? p0) && (p0 <=? 239) then Some (3, 128, 191)
  else if p0 =? 240 then Some (4, 144, 191)
  else if (241 <=? p0) && (p0 <=? 243) then Some (4, 128, 191)
  else if p0 =? 244 then Some (4, 128, 143)
  else None.

(** A continuation byte lies between [locb] and [hicb]. *)
Definition continuation (b : Z) : bool := (128 <=? b) && (b <=? 191).

(** The runes that [for _, r := range s] yields.  A byte that does not
    start a well-formed sequence yields [RuneError] and is skipped alone. *)
Fixpoint runes (s : list Byte.byte) : list Z :=
  match s with
  | [] => []
  | c0 :: t0 =>
      let p0 := byte_to_Z c0 in
      if p0 <? 128 then p0 :: runes t0
      else
        match first p0 with
        | None => RuneError :: runes t0
        | Some (sz, lo, hi) =>
            match t0 with
            | [] => RuneError :: runes t0
            | c1 :: t1 =>
                let b1 := byte_to_Z c1 in
                if (b1 <? lo) || (hi <? b1) then RuneError :: runes t0
                else if sz <=? 2 then
                  Z.lor (Z.shiftl (Z.land p0 31) 6) (Z.land b1 63) :: runes t1
                else
                  match t1 with
                  | [] => RuneError :: runes t0
                  | c2 :: t2 =>
                      let b2 := byte_to_Z c2 in
                      if negb (continuation b2) then RuneError :: runes t0
                      else if sz <=? 3 then
                        Z.lor (Z.shiftl (Z.land p0 15) 12)
                          (Z.lor (Z.shiftl (Z.land b1 63) 6) (Z.land b2 63))
                        :: runes t2
                      else
                        match t2 with
                        | [] => RuneError :: runes t0
                        | c3 :: t3 =>
                            let b3 := byte_to_Z c3 in
                            if negb (continuation b3) then RuneError :: runes t0
                            else
                              Z.lor (Z.shiftl (Z.land p0 7) 18)
                                (Z.lor (Z.shiftl (Z.land b1 63) 12)
                                   (Z.lor (Z.shiftl (Z.land b2 63) 6)
                                      (Z.land b3 63)))
                              :: runes t3
                        end
                  end
            end
        end
  end.

(** The bytes that [WriteRune] appends for a rune: a value that is not a
    code point (out of range or a surrogate) is written as [RuneError]. *)
Definition encode3 (r : Z) : list Byte.byte :=
  [ byte_of_Z (Z.lor 224 (Z.shiftr r 12));
    byte_of_Z (Z.lor 128 (Z.land (Z.shiftr r 6) 63));
    byte_of_Z (Z.lor 128 (Z.land r 63)) ].

Definition encode (r : Z) : list Byte.byte :=
  let i := r mod 2 ^ 32 in
  if i <=? 127 then [byte_of_Z r]
  else if i <=? 2047 then
    [ byte_of_Z (Z.lor 192 (Z.shiftr r 6));
      byte_of_Z (Z.lor 128 (Z.land r 63)) ]
  else if (MaxRune <? i) || ((55296 <=? i) && (i <=? 57343)) then
    encode3 RuneError
  else if i <=? 65535 then encode3 r
  else
    [ byte_of_Z (Z.lor 240 (Z.shiftr r 18));
      byte_of_Z (Z.lor 128 (Z.land (Z.shiftr r 12) 63));
      byte_of_Z (Z.lor 128 (Z.land (Z.shiftr r 6) 63));
      byte_of_Z (Z.lor 128 (Z.land r 63)) ].

End utf8.

(** ** Queries on the character table *)

(** The loop of [SupportsChars] that fills the map [unsupp]. *)
Definition unsupported (s : list Byte.byte) : gmap Z bool :=
  fold_left
    (fun unsupp r =>
       match characterSegments !! r with
       | None => <[r := true]> unsupp
       | Some _ => unsupp
       end)
    (utf8.runes s) ∅.

(** The runes come back in the order in which the map is walked, which Go
    leaves unspecified; the statements below hold for every order. *)
Definition SupportsChars (s : list Byte.byte) : bool * list Z :=
  let res := (map_to_list (unsupported s)).*1 in
  (bool_decide (length res = 0%nat), res).

Definition Sanitize (s : list Byte.byte) : list Byte.byte :=
  fold_left
    (fun b r =>
       match characterSegments !! r with
       | None => b ++ utf8.encode (rune " ")
       | Some _ => b ++ utf8.encode r
       end)
    (utf8.runes s) [].

(** Whether a rune has an entry in the table. *)
Definition supported (r : Z) : bool :=
  match characterSegments !! r with
  | Some _ => true
  | None => false
  end.

(** What [Sanitize] does to one rune. *)
Definition sanitizeRune (r : Z) : Z := if supported r then r else rune " ".

(** A string literal as Go stores it. *)
Definition bytes (s : string) : list Byte.byte := String.list_byte_of_string s.

(** ** Drawing *)

Section Draw.

Context {CellOption : Type}.

(** The canvases, the braille canvas and the segment rasterizers are
    collaborators from other packages; the geometry helpers of this package
    live in another file.  They are taken as they are used: a canvas is a
    value that the calls transform. *)
Context {Canvas BrailleCanvas SegmentType DiagonalType Attributes : Type}.

(** The options of package segment that [Draw] builds. *)
Inductive segmentOption : Type :=
  | segmentCellOpts (cOpts : list CellOption)
  | SkipSlopesLTE (v : Z)
  | ReverseSlopes.

Inductive DiagonalOption : Type :=
  | DiagonalCellOpts (cOpts : list CellOption).

Record Collaborators := mkCollaborators {
  canvasArea : Canvas -> Rectangle;
  brailleNew : Rectangle -> error + BrailleCanvas;
  brailleArea : BrailleCanvas -> Rectangle;
  CopyTo : BrailleCanvas -> Canvas -> Canvas * option error;
  segmentHV : BrailleCanvas -> Rectangle -> SegmentType ->
              list segmentOption -> BrailleCanvas * option error;
  segmentDiagonal : BrailleCanvas -> Rectangle -> Z -> DiagonalType ->
                    list DiagonalOption -> BrailleCanvas * option error;
  newAttributes : Rectangle -> Attributes;
  segSize : Attributes -> Z;
  hvSegArea : Attributes -> Segment -> Rectangle;
  diaSegArea : Attributes -> Segment -> Rectangle;
  hvSegType : Segment -> SegmentType;
  diaSegType : Segment -> DiagonalType
}.

Variable env : Collaborators.

(** A call to a rasterizer, tagged with the segment it is made for. *)
Inductive Request : Type :=
  | RequestHV (s : Segment) (ar : Rectangle) (st : SegmentType)
              (opts : list segmentOption)
  | RequestDiagonal (s : Segment) (ar : Rectangle) (width : Z)
                    (dt : DiagonalType) (opts : list DiagonalOption).

Definition toBraille (cvs : Canvas) : error + (BrailleCanvas * Rectangle) :=
  match Required (canvasArea env cvs) with
  | (_, Some err) => inl (ErrRequired err)
  | (ar, None) =>
      match brailleNew env ar with
      | inl err => inl (ErrBrailleNew err)
      | inr bc => inr (bc, area.WithRatio (brailleArea env bc) aspectRatio)
      end
  end.

(** The literal that the first loop of [Draw] ranges over. *)
Definition segArgs : list (Segment * list segmentOption) :=
  [ (A1, []);
    (A2, []);

    (F, []);
    (J, [SkipSlopesLTE 2]);
    (B, [ReverseSlopes]);

    (G1, [SkipSlopesLTE 2]);
    (G2, [SkipSlopesLTE 2]);

    (E, []);
    (M, [SkipSlopesLTE 2]);
    (C, [ReverseSlopes]);

    (D1, [ReverseSlopes]);
    (D2, [ReverseSlopes]) ].

(** The first loop of [Draw]: the braille canvas after it, the requests
    made in order, and the error that ended it early, if any. *)
Fixpoint drawHV (d : Display CellOption) (attr : Attributes)
    (sOpts : list segmentOption) (args : list (Segment * list segmentOption))
    (bc : BrailleCanvas) : BrailleCanvas * list Request * option error :=
  match args with
  | [] => (bc, [], None)
  | (s, opts) :: rest =>
      if negb (lit d s) then drawHV d attr sOpts rest bc
      else
        let sOpts' := sOpts ++ opts in
        let ar := hvSegArea env attr s in
        let req := RequestHV s ar (hvSegType env s) sOpts' in
        match segmentHV env bc ar (hvSegType env s) sOpts' with
        | (bc', Some err) => (bc', [req], Some (ErrSegmentHV s err))
        | (bc', None) =>
            let '(bc'', reqs, res) := drawHV d attr sOpts rest bc' in
            (bc'', req :: reqs, res)
        end
  end.

(** The second loop of [Draw]. *)
Fixpoint drawDiagonal (d : Display CellOption) (attr : Attributes)
    (dsOpts : list DiagonalOption) (segs : list Segment)
    (bc : BrailleCanvas) : BrailleCanvas * list Request * option error :=
  match segs with
  | [] => (bc, [], None)
  | seg :: rest =>
      if negb (lit d seg) then drawDiagonal d attr dsOpts rest bc
      else
        let ar := diaSegArea env attr seg in
        let req := RequestDiagonal seg ar (segSize env attr)
                     (diaSegType env seg) dsOpts in
        match segmentDiagonal env bc ar (segSize env attr)
                (diaSegType env seg) dsOpts with
        | (bc', Some err) => (bc', [req], Some (ErrSegmentDiagonal seg err))
        | (bc', None) =>
            let '(bc'', reqs, res) := drawDiagonal d attr dsOpts rest bc' in
            (bc'', req :: reqs, res)
        end
  end.

(** What a call to [Draw] leaves behind: the display, the caller's
    canvas, the requests made to the rasterizers and the returned error. *)
Record Outcome := mkOutcome {
  display : Display CellOption;
  surface : Canvas;
  requests : list Request;
  result : option error
}.

Definition Draw (cvs : Canvas) (opts : list (Option CellOption))
    (d : Display CellOption) : Outcome :=
  let d := applyOptions opts d in
  match toBraille cvs with
  | inl err => mkOutcome d cvs [] (Some err)
  | inr (bc, bcAr) =>
      let attr := newAttributes env bcAr in
      let sOpts :=
        if (0 <? length (cellOpts d))%nat then [segmentCellOpts (cellOpts d)]
        else [] in
      match drawHV d attr sOpts segArgs bc with
      | (_, reqs, Some err) => mkOutcome d cvs reqs (Some err)
      | (bc, reqs, None) =>
          let dsOpts :=
            if (0 <? length (cellOpts d))%nat then [DiagonalCellOpts (cellOpts d)]
            else [] in
          match drawDiagonal d attr dsOpts [H; K; N; L] bc with
          | (_, reqs', Some err) => mkOutcome d cvs (reqs ++ reqs') (Some err)
          | (bc, reqs', None) =>
              let '(cvs', res) := CopyTo env bc cvs in
              mkOutcome d cvs' (reqs ++ reqs') res
          end
      end
  end.

(** *** The drawing order as the specification words it *)

Definition straightOrder : list Segment :=
  [A1; A2; F; J; B; G1; G2; E; M; C; D1; D2].

Definition diagonalOrder : list Segment := [H; K; N; L].

(** The option that a straight segment carries on top of the styling. *)
Definition overlay (s : Segment) : list segmentOption :=
  if bool_decide (s ∈ [J; G1; G2; M]) then [SkipSlopesLTE 2]
  else if bool_decide (s ∈ [B; C; D1; D2]) then [ReverseSlopes]
  else [].

Definition styling (d : Display CellOption) : list segmentOption :=
  if (0 <? length (cellOpts d))%nat then [segmentCellOpts (cellOpts d)] else [].

Definition diagonalStyling (d : Display CellOption) : list DiagonalOption :=
  if (0 <? length (cellOpts d))%nat then [DiagonalCellOpts (cellOpts d)] else [].

Definition straightRequest (d : Display CellOption) (attr : Attributes)
    (s : Segment) : Request :=
  RequestHV s (hvSegArea env attr s) (hvSegType env s) (styling d ++ overlay s).

Definition diagonalRequest (d : Display CellOption) (attr : Attributes)
    (s : Segment) : Request :=
  RequestDiagonal s (diaSegArea env attr s) (segSize env attr)
    (diaSegType env s) (diagonalStyling d).

(** One request for every lit segment: the straight ones in their
    order, then the diagonal ones. *)
Definition expectedRequests (d : Display CellOption) (attr : Attributes)
    : list Request :=
  (straightRequest d attr <$> filter (fun s => lit d s = true) straightOrder)
  ++ (diagonalRequest d attr <$> filter (fun s => lit d s = true) diagonalOrder).

(** *** Requests as the rasterizers see them *)

Definition issue (req : Request) (bc : BrailleCanvas)
    : BrailleCanvas * option error :=
  match req with
  | RequestHV _ ar st opts => segmentHV env bc ar st opts
  | RequestDiagonal _ ar width dt opts => segmentDiagonal env bc ar width dt opts
  end.

(** The braille canvas after a sequence of requests. *)
Definition replay (reqs : list Request) (bc : BrailleCanvas) : BrailleCanvas :=
  fold_left (fun bc req => (issue req bc).1) reqs bc.

(** The error [Draw] returns when a request fails with [e]. *)
Definition wrapFailure (req : Request) (e : error) : error :=
  match req with
  | RequestHV s _ _ _ => ErrSegmentHV s e
  | RequestDiagonal s _ _ _ _ => ErrSegmentDiagonal s e
  end.

(** A run of requests from a braille canvas: it ends when the requests
    are exhausted or at the first request that fails. *)
Inductive ran : BrailleCanvas -> list Request -> BrailleCanvas -> option error -> Prop :=
  | ran_done bc : ran bc [] bc None
  | ran_fail bc req bc' e :
      issue req bc = (bc', Some e) ->
      ran bc [req] bc' (Some (wrapFailure req e))
  | ran_step bc req bc' reqs bc'' res :
      issue req bc = (bc', None) ->
      ran bc' reqs bc'' res ->
      ran bc (req :: reqs) bc'' res.

End Draw.

Arguments Collaborators : clear implicits.
Arguments Request : clear implicits.
Arguments Outcome : clear implicits.

(** ** Collaborators to run [Draw] with *)

(** A stand-in for the collaborators, small enough to evaluate [Draw] on
    concrete inputs.  A canvas is its area and the regions painted on it;
    a rasterizer refuses an empty region and paints any other.  The segment
    regions are squares whose side is a sixteenth of the width, so that they
    are empty on the smallest canvas. *)
Inductive Orientation : Type := Horizontal | Vertical.

Inductive Slant : Type := LeftToRight | RightToLeft.

Definition paint (bc : Rectangle * list Rectangle) (ar : Rectangle)
    : (Rectangle * list Rectangle) * option error :=
  if (Dx ar <? 1) || (Dy ar <? 1) then (bc, Some (ErrExternal "empty area"))
  else ((bc.1, bc.2 ++ [ar]), None).

Definition square (attr : Rectangle) (s : Segment) : Rectangle :=
  let side := Dx attr / 16 in
  Rect (X (Min attr) + s) (Y (Min attr) + s)
       (X (Min attr) + s + side) (Y (Min attr) + s + side).

Definition standIn
    : Collaborators nat (Rectangle * list Rectangle) (Rectangle * list Rectangle)
        Orientation Slant Rectangle :=
  {| canvasArea := fst;
     brailleNew := fun ar =>
       inr (Rect (X (Min ar)) (Y (Min ar))
                 (X (Max ar) * braille.ColMult) (Y (Max ar) * braille.RowMult), []);
     brailleArea := fst;
     CopyTo := fun bc cvs => ((cvs.1, bc.2), None);
     segmentHV := fun bc ar _ _ => paint bc ar;
     segmentDiagonal := fun bc ar _ _ _ => paint bc ar;
     newAttributes := fun ar => ar;
     segSize := fun attr => Dx attr / 16;
     hvSegArea := square;
     diaSegArea := square;
     hvSegType := fun s =>
       if bool_decide (s ∈ [A1; A2; G1; G2; D1; D2]) then Horizontal else Vertical;
     diaSegType := fun s =>
       if bool_decide (s ∈ [H; L]) then LeftToRight else RightToLeft |}.

(** ** Segment names *)

(** The entries of the [segmentNames] literal, in source order. *)
Definition segmentNamesEntries : list (Z * string) :=
  [ (A1, "A1"%string);
    (A2, "A2"%string);
    (B, "B"%string);
    (C, "C"%string);
    (D1, "D1"%string);
    (D2, "D2"%string);
    (E, "E"%string);
    (F, "F"%string);
    (G1, "G1"%string);
    (G2, "G2"%string);
    (H, "H"%string);
    (J, "J"%string);
    (K, "K"%string);
    (L, "L"%string);
    (M, "M"%string);
    (N, "N"%string) ].

Definition segmentNames : gmap Z string := list_to_map segmentNamesEntries.

(** The method [String] of [Segment]. *)
Definition Segment_String (s : Segment) : string :=
  match segmentNames !! s with
  | Some n => n
  | None => "SegmentUnknown"%string
  end.

(** [AllSegments] walks the keys of [segmentNames]; Go leaves the order
    unspecified, and the statements about it hold for every order. *)
Definition AllSegments : list Segment := (map_to_list segmentNames).*1.

(** ** Well-formed displays *)


(** The three segment mutators under one name. *)
Inductive Mutator : Type := DoSet | DoClear | DoToggle.

Definition mutate {CellOption : Type} (m : Mutator) (s : Segment)
    (d : Display CellOption) : Display CellOption * option error :=
  match m with
  | DoSet => SetSegment s d
  | DoClear => ClearSegment s d
  | DoToggle => ToggleSegment s d
  end.

(** The segment a request is made for. *)
Definition requestSegment {CellOption SegmentType DiagonalType : Type}
    (req : Request CellOption SegmentType DiagonalType) : Segment :=
  match req with
  | RequestHV s _ _ _ => s
  | RequestDiagonal s _ _ _ _ => s
  end.

(** * Properties *)

(** ** Segment validation *)

Arguments invalidSegment : simpl never.

Lemma invalidSegment_true (s : Segment) :
  invalidSegment s = true <-> s <= segmentUnknown \/ segmentMax <= s.
Proof. unfold invalidSegment. rewrite orb_true_iff, !Z.leb_le. reflexivity. Qed.

Lemma invalidSegment_false (s : Segment) :
  invalidSegment s = false <-> segmentUnknown < s < segmentMax.
Proof. unfold invalidSegment. rewrite orb_false_iff, !Z.leb_gt. reflexivity. Qed.

Section DisplayFacts.

Context {CellOption : Type}.
Implicit Types (d : Display CellOption) (s : Segment).

Lemma lit_insert d s s' b (co : list CellOption) :
  lit (mkDisplay (<[s := b]> (segments d)) co) s'
  = if decide (s = s') then b else lit d s'.
Proof.
  unfold lit; simpl. rewrite lookup_insert. destruct (decide (s = s')); reflexivity.
Qed.

Lemma lit_mk (m : gmap Z bool) (co : list CellOption) s :
  lit (mkDisplay m co) s = default false (m !! s).
Proof. reflexivity. Qed.

Lemma segments_applyOptions (opts : list (Option CellOption)) d :
  segments (applyOptions opts d) = segments d.
Proof.
  revert d. induction opts as [|[co] opts IH]; intros d; [reflexivity|].
  change (applyOptions (CellOpts co :: opts) d)
    with (applyOptions opts (set (CellOpts co) d)).
  rewrite IH. reflexivity.
Qed.

(** [SetSegment] over a list of valid segments never fails and lights
    exactly the listed segments on top of those already lit. *)
Lemma setSegments_valid (seg : list Segment) d :
  Forall (fun s => invalidSegment s = false) seg ->
  (setSegments seg d).2 = None /\
  cellOpts (setSegments seg d).1 = cellOpts d /\
  forall s, lit (setSegments seg d).1 s = lit d s || bool_decide (s ∈ seg).
Proof.
  revert d. induction seg as [|a seg IH]; intros d Hall; simpl.
  - repeat split. intros x. rewrite orb_false_r. reflexivity.
  - apply Forall_cons in Hall as [Ha Hall].
    unfold SetSegment. rewrite Ha.
    destruct (IH (mkDisplay (<[a := true]> (segments d)) (cellOpts d)) Hall)
      as (Hres & Hco & Hlit).
    split; [exact Hres|]. split; [exact Hco|].
    intros x. rewrite Hlit, lit_insert.
    destruct (decide (a = x)) as [->|Hne].
    + rewrite (bool_decide_eq_true_2 (x ∈ x :: seg)) by left.
      rewrite orb_true_r. reflexivity.
    + destruct (lit d x); simpl; [reflexivity|].
      apply bool_decide_ext. rewrite elem_of_cons.
      split; [intros Hin; right; exact Hin | intros [Heq|Hin]; [congruence | exact Hin]].
Qed.

End DisplayFacts.

(** ** Facts read off the character table *)

Lemma characterSegments_NoDup : NoDup characterSegmentsEntries.*1.
Proof. apply (bool_decide_unpack _). vm_compute. exact I. Qed.

Lemma characterSegments_entry (r : Z) (seg : list Segment) :
  characterSegments !! r = Some seg <-> (r, seg) ∈ characterSegmentsEntries.
Proof.
  unfold characterSegments. symmetry.
  apply elem_of_list_to_map, characterSegments_NoDup.
Qed.

Lemma characterSegments_entries_ok :
  Forall (fun e : Z * list Segment =>
            (32 <= e.1 <= 126 /\ e.1 <> 46) /\
            Forall (fun s => invalidSegment s = false) e.2)
         characterSegmentsEntries.
Proof.
  apply (bool_decide_unpack _). vm_compute. exact I.
Qed.

Lemma characterSegments_key (r : Z) (seg : list Segment) :
  characterSegments !! r = Some seg -> 32 <= r <= 126 /\ r <> 46.
Proof.
  intros Hr%characterSegments_entry.
  pose proof characterSegments_entries_ok as Hok.
  rewrite Forall_forall in Hok. apply (Hok _ Hr).
Qed.

Lemma characterSegments_valid (r : Z) (seg : list Segment) :
  characterSegments !! r = Some seg ->
  Forall (fun s => invalidSegment s = false) seg.
Proof.
  intros Hr%characterSegments_entry.
  pose proof characterSegments_entries_ok as Hok.
  rewrite Forall_forall in Hok. apply (Hok _ Hr).
Qed.

Lemma supported_printable (r : Z) :
  32 <= r <= 126 -> supported r = negb (r =? 46).
Proof.
  intros Hr.
  assert (Hall : Forall (fun r => supported r = negb (r =? 46)) (seqZ 32 95)).
  { apply (bool_decide_unpack _). vm_compute. exact I. }
  rewrite Forall_forall in Hall. apply Hall, elem_of_seqZ. lia.
Qed.

Lemma supported_iff (r : Z) :
  supported r = true <-> 32 <= r <= 126 /\ r <> 46.
Proof.
  split.
  - unfold supported. destruct (characterSegments !! r) as [seg|] eqn:Hr; [|discriminate].
    intros _. exact (characterSegments_key _ _ Hr).
  - intros [Hr Hne]. rewrite supported_printable by exact Hr.
    apply negb_true_iff, Z.eqb_neq, Hne.
Qed.

(** ** The segment mutators *)

(** C7.  A segment outside the open interval between the unknown sentinel
    and the bound [segmentMax] makes [SetSegment], [ClearSegment] and
    [ToggleSegment] fail with the unknown-segment error and leaves the
    display as it was; a segment inside the interval makes each of them
    succeed. *)
Theorem mutators_validate_segment {CellOption : Type}
    (d : Display CellOption) (s : Segment) :
  (s <= segmentUnknown \/ segmentMax <= s ->
     SetSegment s d = (d, Some (ErrUnknownSegment s)) /\
     ClearSegment s d = (d, Some (ErrUnknownSegment s)) /\
     ToggleSegment s d = (d, Some (ErrUnknownSegment s))) /\
  (segmentUnknown < s < segmentMax ->
     (SetSegment s d).2 = None /\
     (ClearSegment s d).2 = None /\
     (ToggleSegment s d).2 = None).
Proof.
  split.
  - intros Hout%invalidSegment_true.
    unfold SetSegment, ClearSegment, ToggleSegment. rewrite Hout. auto.
  - intros Hin%invalidSegment_false.
    unfold SetSegment, ClearSegment, ToggleSegment. rewrite Hin.
    destruct (lit d s); auto.
Qed.

Lemma mutators_validate_segment_witness :
  (SetSegment 17 (New (CellOption := nat) [])
     = (New [], Some (ErrUnknownSegment 17))) /\
  (ToggleSegment G1 (New (CellOption := nat) [])).2 = None.
Proof.
  split.
  - apply (proj1 (mutators_validate_segment (New []) 17)).
    right. unfold segmentMax. lia.
  - apply (proj2 (mutators_validate_segment (New []) G1)).
    unfold segmentUnknown, G1, segmentMax. lia.
Defined.

(** C8.  For a valid segment: setting twice is setting once, clearing
    twice is clearing once, clearing after setting leaves the segment
    unlit, and toggling twice gives back the lit state of every segment. *)
Theorem mutators_algebra {CellOption : Type}
    (d : Display CellOption) (s : Segment) :
  segmentUnknown < s < segmentMax ->
  (SetSegment s (SetSegment s d).1).1 = (SetSegment s d).1 /\
  (ClearSegment s (ClearSegment s d).1).1 = (ClearSegment s d).1 /\
  lit (ClearSegment s (SetSegment s d).1).1 s = false /\
  (forall s', lit (ToggleSegment s (ToggleSegment s d).1).1 s' = lit d s') /\
  cellOpts (ToggleSegment s (ToggleSegment s d).1).1 = cellOpts d.
Proof.
  intros Hin%invalidSegment_false.
  unfold SetSegment, ClearSegment. rewrite Hin. simpl.
  repeat split.
  - rewrite insert_insert_eq. reflexivity.
  - rewrite insert_insert_eq. reflexivity.
  - rewrite lit_mk, lookup_insert_eq. reflexivity.
  - intros s'. unfold ToggleSegment. rewrite Hin.
    destruct (lit d s) eqn:Hd; simpl;
      rewrite (lit_mk (<[s := _]> _) _ s), lookup_insert_eq; simpl;
      rewrite lit_mk, insert_insert_eq, lookup_insert;
      (destruct (decide (s = s')) as [<-|Hne]; [symmetry; exact Hd | reflexivity]).
  - unfold ToggleSegment. rewrite Hin.
    destruct (lit d s); simpl;
      match goal with |- context [if ?b then _ else _] => destruct b end;
      reflexivity.
Qed.

Lemma mutators_algebra_witness :
  lit (ClearSegment M (SetSegment M (New (CellOption := nat) [])).1).1 M = false.
Proof.
  apply (mutators_algebra (New []) M).
  unfold segmentUnknown, M, segmentMax. lia.
Defined.

(** Two toggles light nothing, yet they leave an entry behind: the maps
    differ although every segment reads as before. *)
Example toggle_twice_keeps_entry :
  segments (ToggleSegment A1 (ToggleSegment A1 (New (CellOption := nat) [])).1).1
  = {[ A1 := false ]}.
Proof. reflexivity. Qed.

(** ** Characters *)

(** C6.  [SetCharacter] fails, with the unsupported-character error, exactly
    when the rune has no entry in [characterSegments]; otherwise it succeeds
    and the segments lit afterwards are those lit before together with the
    segments of the entry.  On a new display the character 8 lights exactly
    A1, A2, F, B, G1, G2, E, C, D1 and D2. *)
Theorem SetCharacter_lights_entry {CellOption : Type}
    (d : Display CellOption) (c : Z) :
  (is_Some (SetCharacter c d).2 <-> characterSegments !! c = None) /\
  (characterSegments !! c = None ->
     SetCharacter c d = (d, Some (ErrUnsupportedCharacter c))) /\
  (forall seg, characterSegments !! c = Some seg ->
     (SetCharacter c d).2 = None /\
     (forall s, s ∈ seg -> lit (SetCharacter c d).1 s = true) /\
     (forall s, lit d s = true -> lit (SetCharacter c d).1 s = true) /\
     (forall s, lit (SetCharacter c d).1 s = lit d s || bool_decide (s ∈ seg))) /\
  (forall s, lit (SetCharacter (rune "8") (New (CellOption := CellOption) [])).1 s = true
             <-> s ∈ [A1; A2; F; B; G1; G2; E; C; D1; D2]).
Proof.
  assert (Hsome : forall seg, characterSegments !! c = Some seg ->
     (SetCharacter c d).2 = None /\
     (forall s, lit (SetCharacter c d).1 s = lit d s || bool_decide (s ∈ seg))).
  { intros seg Hc. unfold SetCharacter. rewrite Hc.
    destruct (setSegments_valid seg d (characterSegments_valid _ _ Hc))
      as (Hres & _ & Hlit).
    split; assumption. }
  split; [|split; [|split]].
  - split.
    + intros Herr. destruct (characterSegments !! c) as [seg|] eqn:Hc; [|reflexivity].
      destruct (Hsome seg eq_refl) as [Hres _]. rewrite Hres in Herr.
      destruct Herr; discriminate.
    + intros Hc. unfold SetCharacter. rewrite Hc. simpl. eauto.
  - intros Hc. unfold SetCharacter. rewrite Hc. reflexivity.
  - intros seg Hc. destruct (Hsome seg Hc) as [Hres Hlit].
    split; [exact Hres|]. split; [|split; [|exact Hlit]].
    + intros s Hs. rewrite Hlit, (bool_decide_eq_true_2 _ Hs). apply orb_true_r.
    + intros s Hs. rewrite Hlit, Hs. reflexivity.
  - intros s.
    assert (H8 : characterSegments !! rune "8"
                 = Some [A1; A2; F; B; G1; G2; E; C; D1; D2]) by reflexivity.
    unfold SetCharacter. rewrite H8.
    destruct (setSegments_valid [A1; A2; F; B; G1; G2; E; C; D1; D2]
                (New (CellOption := CellOption) [])
                (characterSegments_valid _ _ H8)) as (_ & _ & Hlit).
    rewrite Hlit. unfold lit at 1. simpl. rewrite lookup_empty. simpl.
    apply bool_decide_eq_true.
Qed.

(** ** Strings of supported characters *)

Lemma byte_to_of_Z (x : Z) : 0 <= x < 256 -> utf8.byte_to_Z (utf8.byte_of_Z x) = x.
Proof.
  intros Hx. unfold utf8.byte_to_Z, utf8.byte_of_Z.
  rewrite Z.mod_small by exact Hx.
  destruct (Byte.of_N (Z.to_N x)) as [b|] eqn:Hb; simpl.
  - rewrite (Byte.to_of_N _ Hb). lia.
  - apply Byte.of_N_None_iff in Hb. lia.
Qed.

(** The decoder on well-formed and on ill-formed input: the euro sign, a
    face from the supplementary planes, an overlong form, an encoded
    surrogate, a sequence above [MaxRune] and a sequence cut short. *)
Example runes_examples :
  utf8.runes (bytes "a" ++ [Byte.xe2; Byte.x82; Byte.xac]
              ++ [Byte.xf0; Byte.x9f; Byte.x98; Byte.x80])
  = [97; 8364; 128512] /\
  utf8.runes [Byte.xc0; Byte.x80]
  = [utf8.RuneError; utf8.RuneError] /\
  utf8.runes [Byte.xed; Byte.xa0; Byte.x80]
  = [utf8.RuneError; utf8.RuneError; utf8.RuneError] /\
  utf8.runes [Byte.xf4; Byte.x90; Byte.x80; Byte.x80]
  = [utf8.RuneError; utf8.RuneError; utf8.RuneError; utf8.RuneError] /\
  utf8.runes [Byte.xe2; Byte.x82; Byte.x41] = [utf8.RuneError; utf8.RuneError; 65].
Proof. repeat split. Qed.

(** A string of bytes below 128 decodes byte by byte. *)
Lemma runes_ascii (s : list Byte.byte) :
  Forall (fun b => utf8.byte_to_Z b < 128) s ->
  utf8.runes s = utf8.byte_to_Z <$> s.
Proof.
  induction 1 as [|b s Hb _ IH]; [reflexivity|].
  cbn [utf8.runes fmap list_fmap].
  apply Z.ltb_lt in Hb. rewrite Hb, IH. reflexivity.
Qed.

Lemma encode_ascii (r : Z) : 0 <= r <= 127 -> utf8.encode r = [utf8.byte_of_Z r].
Proof.
  intros Hr. unfold utf8.encode.
  rewrite Z.mod_small by lia.
  destruct (Z.leb_spec r 127); [reflexivity | lia].
Qed.

Lemma sanitizeRune_supported (r : Z) : supported (sanitizeRune r) = true.
Proof. unfold sanitizeRune. destruct (supported r) eqn:Hr; [exact Hr | reflexivity]. Qed.

Lemma sanitizeRune_range (r : Z) : 32 <= sanitizeRune r <= 126.
Proof. apply supported_iff, sanitizeRune_supported. Qed.

Lemma sanitizeRune_idemp (r : Z) : sanitizeRune (sanitizeRune r) = sanitizeRune r.
Proof. unfold sanitizeRune at 1. rewrite sanitizeRune_supported. reflexivity. Qed.

(** The loop of [Sanitize] appends one byte for each rune. *)
Lemma Sanitize_bytes (s : list Byte.byte) :
  Sanitize s = utf8.byte_of_Z <$> (sanitizeRune <$> utf8.runes s).
Proof.
  unfold Sanitize.
  change (fold_left _ (utf8.runes s) [])
    with (fold_left
            (fun b r => match characterSegments !! r with
                        | None => b ++ utf8.encode (rune " ")
                        | Some _ => b ++ utf8.encode r
                        end) (utf8.runes s) []).
  rewrite <- (app_nil_l (utf8.byte_of_Z <$> _)).
  generalize (@nil Byte.byte) as acc.
  induction (utf8.runes s) as [|r rs IH]; intros acc;
    cbn [fold_left fmap list_fmap].
  - rewrite app_nil_r. reflexivity.
  - assert (Henc : match characterSegments !! r with
                   | None => acc ++ utf8.encode (rune " ")
                   | Some _ => acc ++ utf8.encode r
                   end = acc ++ [utf8.byte_of_Z (sanitizeRune r)]).
    { unfold sanitizeRune, supported.
      destruct (characterSegments !! r) as [seg|] eqn:Hr; [|reflexivity].
      f_equal. apply encode_ascii. apply characterSegments_key in Hr. lia. }
    rewrite Henc, IH, <- app_assoc. reflexivity.
Qed.

Lemma Sanitize_runes (s : list Byte.byte) :
  utf8.runes (Sanitize s) = sanitizeRune <$> utf8.runes s.
Proof.
  rewrite Sanitize_bytes, runes_ascii.
  - rewrite <- !list_fmap_compose. apply list_fmap_ext; intros i r _; simpl.
    apply byte_to_of_Z. pose proof (sanitizeRune_range r). lia.
  - apply Forall_fmap, Forall_fmap, Forall_forall. intros r _; simpl.
    rewrite byte_to_of_Z; pose proof (sanitizeRune_range r); lia.
Qed.

(** C9.  [Sanitize] keeps the number of runes; at every position a rune
    with an entry in the table is kept and any other rune becomes a space;
    sanitizing twice is sanitizing once. *)
Theorem Sanitize_spec (s : list Byte.byte) :
  length (utf8.runes (Sanitize s)) = length (utf8.runes s) /\
  (forall (i : nat) (r : Z), utf8.runes s !! i = Some r ->
     utf8.runes (Sanitize s) !! i
     = Some (if supported r then r else rune " ")) /\
  (forall (i : nat), utf8.runes s !! i = None -> utf8.runes (Sanitize s) !! i = None) /\
  Sanitize (Sanitize s) = Sanitize s.
Proof.
  rewrite Sanitize_runes. repeat split.
  - apply length_fmap.
  - intros i r Hr. rewrite list_lookup_fmap, Hr. reflexivity.
  - intros i Hi. rewrite list_lookup_fmap, Hi. reflexivity.
  - rewrite (Sanitize_bytes (Sanitize s)), Sanitize_runes, Sanitize_bytes.
    f_equal. rewrite <- list_fmap_compose.
    apply list_fmap_ext; intros i r _; simpl. apply sanitizeRune_idemp.
Qed.

(** An ill-formed byte counts as one rune and becomes one space, and a
    rune of several bytes becomes a single byte. *)
Example Sanitize_examples :
  Sanitize (bytes "Hi. ok") = bytes "Hi  ok" /\
  Sanitize (utf8.encode 8364 ++ [Byte.xff] ++ bytes "A") = bytes "  A".
Proof. split; vm_compute; reflexivity. Qed.

Lemma unsupported_all_supported (rs : list Z) (acc : gmap Z bool) :
  Forall (fun r => supported r = true) rs ->
  fold_left
    (fun unsupp r =>
       match characterSegments !! r with
       | None => <[r := true]> unsupp
       | Some _ => unsupp
       end) rs acc = acc.
Proof.
  induction 1 as [|r rs Hr _ IH]; cbn [fold_left]; [reflexivity|].
  unfold supported in Hr.
  destruct (characterSegments !! r); [exact IH | discriminate].
Qed.

(** C10.  Every printable ASCII rune, from the space to the tilde, has an
    entry in [characterSegments], except the period alone.  So a string of
    printable ASCII characters without a period is supported, with nothing
    reported, and the string made of one period is not, with the period
    reported. *)
Theorem printable_ascii_supported :
  (forall r : Z, 32 <= r <= 126 ->
     (is_Some (characterSegments !! r) <-> r <> rune ".")) /\
  (forall s : list Byte.byte,
     Forall (fun b => 32 <= utf8.byte_to_Z b <= 126 /\
                      utf8.byte_to_Z b <> rune ".") s ->
     SupportsChars s = (true, [])) /\
  SupportsChars (bytes ".") = (false, [rune "."]).
Proof.
  split; [|split].
  - intros r Hr. pose proof (supported_printable r Hr) as Hs.
    unfold supported in Hs. change (rune ".") with 46.
    destruct (characterSegments !! r) as [seg|]; split.
    + intros _ ->. discriminate.
    + eauto.
    + intros [x Hx]. discriminate.
    + intros Hne. apply Z.eqb_neq in Hne. rewrite Hne in Hs. discriminate.
  - intros s Hs. unfold SupportsChars, unsupported.
    rewrite unsupported_all_supported; [reflexivity|].
    rewrite runes_ascii.
    + apply Forall_fmap. eapply Forall_impl; [exact Hs|].
      intros b [Hb Hne]; simpl. apply supported_iff. split; assumption.
    + eapply Forall_impl; [exact Hs|]. intros b [Hb _]. lia.
  - vm_compute. reflexivity.
Qed.

(** ** Sizing *)

Lemma wrap_small (z : Z) : GoInt.in_range z -> GoInt.wrap z = z.
Proof.
  unfold GoInt.in_range, GoInt.wrap. intros Hz.
  rewrite Z.mod_small; lia.
Qed.

Lemma to_float64_small (n : Z) : Z.abs n < 2 ^ 53 -> GoInt.to_float64 n = n.
Proof.
  intros Hn. unfold GoInt.to_float64.
  destruct (Z.ltb_spec (Z.abs n) (2 ^ 53)); [reflexivity | lia].
Qed.

Lemma Rect_canon (x0 y0 x1 y1 : Z) :
  x0 <= x1 -> y0 <= y1 ->
  Rect x0 y0 x1 y1 = mkRectangle (mkPoint x0 y0) (mkPoint x1 y1).
Proof.
  intros Hx Hy. unfold Rect.
  destruct (Z.ltb_spec x1 x0); [lia|].
  destruct (Z.ltb_spec y1 y0); [lia|]. reflexivity.
Qed.

(** The model of [area.WithRatio] does what the specification says of it
    for the ratio 3:5: the result keeps the origin, lies inside the area,
    has the ratio, and no rectangle with these properties is larger. *)
Lemma WithRatio_largest (x0 y0 w h : Z) :
  - 2 ^ 31 <= x0 <= 2 ^ 31 -> - 2 ^ 31 <= y0 <= 2 ^ 31 ->
  0 <= w <= 2 ^ 32 -> 0 <= h <= 2 ^ 32 ->
  let ar := mkRectangle (mkPoint x0 y0) (mkPoint (x0 + w) (y0 + h)) in
  let res := area.WithRatio ar aspectRatio in
  Min res = Min ar /\
  5 * Dx res = 3 * Dy res /\
  0 <= Dx res <= w /\ 0 <= Dy res <= h /\
  forall w' h', 0 <= w' <= w -> 0 <= h' <= h -> 5 * w' = 3 * h' ->
                w' <= Dx res /\ h' <= Dy res.
Proof.
  intros Hx Hy Hw Hh ar res.
  assert (H31 : 2 ^ 31 = 2147483648) by reflexivity.
  assert (H32 : 2 ^ 32 = 4294967296) by reflexivity.
  assert (Hrange : forall z, - 2 ^ 40 <= z <= 2 ^ 40 -> GoInt.wrap z = z).
  { intros z Hz. apply wrap_small. unfold GoInt.in_range.
    change (2 ^ 40) with 1099511627776 in Hz.
    change (2 ^ 63) with 9223372036854775808. lia. }
  assert (H40 : 2 ^ 40 = 1099511627776) by reflexivity.
  subst res ar.
  unfold area.WithRatio, aspectRatio, Dx, Dy, GoInt.quo, GoInt.sub, GoInt.mul, GoInt.add.
  cbn [X Y Min Max].
  replace (x0 + w - x0) with w by lia. replace (y0 + h - y0) with h by lia.
  rewrite (Hrange w), (Hrange h) by lia.
  rewrite !Z.quot_div_nonneg by lia.
  assert (Hq1 : 0 <= w / 3 <= w) by (Z.to_euclidean_division_equations; lia).
  assert (Hq2 : 0 <= h / 5 <= h) by (Z.to_euclidean_division_equations; lia).
  rewrite (Hrange (w / 3)), (Hrange (h / 5)) by lia.
  set (f := if w / 3 <? h / 5 then w / 3 else h / 5).
  assert (Hf : 0 <= f /\ 3 * f <= w /\ 5 * f <= h /\ (w < 3 * (f + 1) \/ h < 5 * (f + 1))).
  { subst f. destruct (Z.ltb_spec (w / 3) (h / 5));
      Z.to_euclidean_division_equations; lia. }
  clearbody f.
  rewrite (Hrange (3 * f)), (Hrange (5 * f)) by lia.
  rewrite (Hrange (3 * f + x0)), (Hrange (5 * f + y0)) by lia.
  rewrite Rect_canon by lia. cbn [X Y Min Max].
  replace (3 * f + x0 - x0) with (3 * f) by lia.
  replace (5 * f + y0 - y0) with (5 * f) by lia.
  rewrite (Hrange (3 * f)), (Hrange (5 * f)) by lia.
  split; [reflexivity|]. split; [lia|]. split; [lia|]. split; [lia|].
  intros w' h' Hw' Hh' Hratio.
  assert (exists k, w' = 3 * k /\ h' = 5 * k) as (k & -> & ->).
  { exists (h' - w' - (w' / 3)). Z.to_euclidean_division_equations. lia. }
  lia.
Qed.

(** [Required] refuses exactly the areas with fewer than [MinCols] columns
    or fewer than [MinRows] rows, and then returns the zero rectangle. *)
Lemma Required_too_small (cellArea : Rectangle) :
  (Dx cellArea < MinCols \/ Dy cellArea < MinRows ->
     Required cellArea
     = (ZR, Some (ErrAreaTooSmall cellArea (Dx cellArea) (Dy cellArea)))) /\
  (MinCols <= Dx cellArea /\ MinRows <= Dy cellArea ->
     (Required cellArea).2 = None).
Proof.
  unfold Required. split.
  - intros Hsmall.
    destruct (Z.ltb_spec (Dx cellArea) MinCols), (Z.ltb_spec (Dy cellArea) MinRows);
      simpl; try reflexivity; lia.
  - intros [Hc Hr].
    destruct (Z.ltb_spec (Dx cellArea) MinCols); [lia|].
    destruct (Z.ltb_spec (Dy cellArea) MinRows); [lia|]. reflexivity.
Qed.

(** The value of [Required] on an area at the zero point. *)
Lemma Required_at_origin (w h : Z) :
  6 <= w < 2 ^ 31 -> 5 <= h < 2 ^ 31 ->
  Required (Rect 0 0 w h)
  = (Rect 0 0 ((3 * ratioFactor w h + 1) / 2) ((5 * ratioFactor w h + 3) / 4), None).
Proof.
  intros Hw Hh.
  assert (H31 : 2 ^ 31 = 2147483648) by reflexivity.
  assert (H53 : 2 ^ 53 = 9007199254740992) by reflexivity.
  assert (Hrange : forall z, - 2 ^ 40 <= z <= 2 ^ 40 -> GoInt.wrap z = z).
  { intros z Hz. apply wrap_small. unfold GoInt.in_range.
    change (2 ^ 40) with 1099511627776 in Hz.
    change (2 ^ 63) with 9223372036854775808. lia. }
  assert (H40 : 2 ^ 40 = 1099511627776) by reflexivity.
  rewrite (Rect_canon 0 0 w h) by lia.
  unfold Required, Dx, Dy, GoInt.sub, GoInt.mul, MinCols, MinRows,
    braille.ColMult, braille.RowMult. cbn [X Y Min Max].
  rewrite !Z.sub_0_r, !(Hrange w), !(Hrange h), !(Hrange (w * 2)), !(Hrange (h * 4)) by lia.
  destruct (Z.ltb_spec w 6); [lia|]. destruct (Z.ltb_spec h 5); [lia|].
  cbn [orb].
  rewrite (Rect_canon 0 0 (w * 2) (h * 4)) by lia.
  unfold area.WithRatio, aspectRatio, Dx, Dy, GoInt.quo, GoInt.sub, GoInt.mul, GoInt.add.
  cbn [X Y Min Max].
  rewrite !Z.sub_0_r, !(Hrange (w * 2)), !(Hrange (h * 4)) by lia.
  rewrite !Z.quot_div_nonneg by lia.
  assert (Hq1 : 4 <= w * 2 / 3 <= w) by (Z.to_euclidean_division_equations; lia).
  assert (Hq2 : 4 <= h * 4 / 5 <= h) by (Z.to_euclidean_division_equations; lia).
  rewrite !(Hrange (w * 2 / 3)), !(Hrange (h * 4 / 5)) by lia.
  assert (Hf : (if w * 2 / 3 <? h * 4 / 5 then w * 2 / 3 else h * 4 / 5)
               = ratioFactor w h).
  { unfold ratioFactor. rewrite (Z.mul_comm 2 w), (Z.mul_comm 4 h).
    destruct (Z.ltb_spec (w * 2 / 3) (h * 4 / 5)); lia. }
  rewrite Hf.
  assert (Hfact : 4 <= ratioFactor w h <= 2 ^ 31).
  { unfold ratioFactor. rewrite (Z.mul_comm 2 w), (Z.mul_comm 4 h). lia. }
  set (f := ratioFactor w h) in *.
  rewrite !Z.add_0_r, !(Hrange (3 * f)), !(Hrange (5 * f)) by lia.
  rewrite (Rect_canon 0 0 (3 * f) (5 * f)) by lia.
  cbn [X Y Min Max]. rewrite !Z.sub_0_r, ?(Hrange (3 * f)), ?(Hrange (5 * f)) by lia.
  unfold GoInt.ceil_div_float64.
  rewrite !to_float64_small by lia.
  assert (Hc : - (- (3 * f) / 2) = (3 * f + 1) / 2)
    by (Z.to_euclidean_division_equations; lia).
  assert (Hr : - (- (5 * f) / 4) = (5 * f + 3) / 4)
    by (Z.to_euclidean_division_equations; lia).
  rewrite Hc, Hr, !Z.add_0_l.
  rewrite !Hrange by (Z.to_euclidean_division_equations; lia).
  reflexivity.
Qed.

(** On an area at the zero point [Required] behaves as documented: the
    result is no larger than the input, and sizing it again changes
    nothing. *)
Lemma Required_at_origin_stable (w h : Z) :
  6 <= w < 2 ^ 31 -> 5 <= h < 2 ^ 31 ->
  Dx (Required (Rect 0 0 w h)).1 <= w /\
  Dy (Required (Rect 0 0 w h)).1 <= h /\
  Required (Required (Rect 0 0 w h)).1 = Required (Rect 0 0 w h).
Proof.
  intros Hw Hh.
  assert (H31 : 2 ^ 31 = 2147483648) by reflexivity.
  rewrite (Required_at_origin w h Hw Hh). cbn [fst].
  assert (Hf : 4 <= ratioFactor w h /\ 3 * ratioFactor w h <= 2 * w
               /\ 5 * ratioFactor w h <= 4 * h).
  { unfold ratioFactor. Z.to_euclidean_division_equations. lia. }
  set (f := ratioFactor w h) in *.
  set (c := (3 * f + 1) / 2). set (r := (5 * f + 3) / 4).
  assert (Hc : 6 <= c <= w) by (subst c; Z.to_euclidean_division_equations; lia).
  assert (Hr : 5 <= r <= h) by (subst r; Z.to_euclidean_division_equations; lia).
  assert (Hsame : ratioFactor c r = f).
  { unfold ratioFactor. subst c r. Z.to_euclidean_division_equations. lia. }
  rewrite (Rect_canon 0 0 c r) by lia.
  unfold Dx, Dy, GoInt.sub. cbn [X Y Min Max]. rewrite !Z.sub_0_r.
  rewrite !wrap_small by (unfold GoInt.in_range;
                          change (2 ^ 63) with 9223372036854775808; lia).
  split; [lia|]. split; [lia|].
  rewrite <- (Rect_canon 0 0 c r) by lia.
  rewrite (Required_at_origin c r) by lia.
  rewrite Hsame. reflexivity.
Qed.

(** C1.  An area of exactly 6 columns by 5 rows whose origin is not the
    zero point: [Required] succeeds and returns 11 columns by 9 rows, more
    than it was given on both axes. *)
Theorem Required_minimum_off_origin :
  Dx (Rect 10 10 16 15) = MinCols /\
  Dy (Rect 10 10 16 15) = MinRows /\
  Required (Rect 10 10 16 15) = (Rect 10 10 21 19, None) /\
  Dx (Required (Rect 10 10 16 15)).1 = 11 /\
  Dy (Required (Rect 10 10 16 15)).1 = 9.
Proof. repeat split; vm_compute; reflexivity. Qed.

(** C2.  Off the zero point [Required] neither shrinks nor settles: the
    area it returns for 6 by 5 cells at (10, 10) is larger than the input,
    sizing that result again returns a still larger area, and the result for
    an area that ends at the zero point is refused when sized again. *)
Theorem Required_off_origin_unstable :
  Required (Rect 10 10 16 15) = (Rect 10 10 21 19, None) /\
  Required (Rect 10 10 21 19) = (Rect 10 10 25 23, None) /\
  Required (Rect (-6) (-5) 0 0) = (Rect (-6) (-5) (-4) (-3), None) /\
  Required (Rect (-6) (-5) (-4) (-3))
  = (ZR, Some (ErrAreaTooSmall (Rect (-6) (-5) (-4) (-3)) 2 2)).
Proof. repeat split; vm_compute; reflexivity. Qed.

(** ** Drawing *)

Section DrawFacts.

Context {CellOption Canvas BrailleCanvas SegmentType DiagonalType Attributes : Type}.
Variable env : Collaborators CellOption Canvas BrailleCanvas
                 SegmentType DiagonalType Attributes.

Implicit Types (d : Display CellOption) (bc : BrailleCanvas)
  (reqs : list (Request CellOption SegmentType DiagonalType))
  (res : option error).

(** The literal [segArgs] pairs the segments of [straightOrder] with
    their overlays. *)
Lemma segArgs_overlay :
  segArgs (CellOption := CellOption) = (fun s => (s, overlay s)) <$> straightOrder.
Proof. reflexivity. Qed.

Lemma ran_app bc reqs bc' reqs' bc'' res :
  ran env bc reqs bc' None -> ran env bc' reqs' bc'' res ->
  ran env bc (reqs ++ reqs') bc'' res.
Proof.
  intros Hrun. remember None as none eqn:Hnone.
  induction Hrun as [bc|bc req bc1 e Hreq|bc req bc1 reqs1 bc2 res1 Hreq Hrun IH];
    intros Hrest.
  - exact Hrest.
  - discriminate.
  - simpl. eapply ran_step; [exact Hreq|]. apply IH; assumption.
Qed.

(** Along a run every request but the last succeeds, and a failing last
    request decides the error. *)
Lemma ran_failure bc reqs bc' res :
  ran env bc reqs bc' res ->
  forall pre req post e,
    reqs = pre ++ req :: post ->
    (issue env req (replay env pre bc)).2 = Some e ->
    post = [] /\ res = Some (wrapFailure req e).
Proof.
  induction 1 as [bc|bc req0 bc1 e0 Hreq|bc req0 bc1 reqs1 bc2 res1 Hreq Hrun IH];
    intros pre req post e Hsplit Hfail.
  - destruct pre; discriminate.
  - destruct pre as [|p pre].
    + simpl in Hsplit. injection Hsplit as <- <-.
      simpl in Hfail. rewrite Hreq in Hfail. simpl in Hfail.
      injection Hfail as <-. split; reflexivity.
    + destruct pre; discriminate.
  - destruct pre as [|p pre].
    + simpl in Hsplit. injection Hsplit as <- <-.
      simpl in Hfail. rewrite Hreq in Hfail. discriminate.
    + simpl in Hsplit. injection Hsplit as <- ->.
      apply (IH pre req post e eq_refl).
      simpl in Hfail. rewrite Hreq in Hfail. exact Hfail.
Qed.

(** A run without an error has replayed all its requests with success;
    a run with an error stopped at a failing request. *)
Lemma ran_result bc reqs bc' res :
  ran env bc reqs bc' res ->
  bc' = replay env reqs bc /\
  match res with
  | None => forall pre req post, reqs = pre ++ req :: post ->
              (issue env req (replay env pre bc)).2 = None
  | Some err => exists pre req e, reqs = pre ++ [req] /\
                  (issue env req (replay env pre bc)).2 = Some e /\
                  err = wrapFailure req e
  end.
Proof.
  induction 1 as [bc|bc req0 bc1 e0 Hreq|bc req0 bc1 reqs1 bc2 res1 Hreq Hrun [IHbc IH]].
  - split; [reflexivity|]. intros pre req post Hsplit. destruct pre; discriminate.
  - split; [simpl; rewrite Hreq; reflexivity|].
    exists [], req0, e0. simpl. rewrite Hreq. repeat split.
  - split; [simpl; rewrite Hreq; exact IHbc|].
    destruct res1 as [err|].
    + destruct IH as (pre & req & e & -> & Hfail & ->).
      exists (req0 :: pre), req, e. simpl. rewrite Hreq. repeat split. exact Hfail.
    + intros pre req post Hsplit. destruct pre as [|p pre].
      * simpl in Hsplit. injection Hsplit as <- <-. simpl. rewrite Hreq. reflexivity.
      * simpl in Hsplit. injection Hsplit as <- ->. simpl. rewrite Hreq.
        apply (IH pre req post eq_refl).
Qed.

(** The first loop is a run of the requests of the lit segments, in the
    order of the list it ranges over. *)
Lemma drawHV_ran d attr (order : list Segment) bc bc' reqs res :
  drawHV env d attr (styling d) ((fun s => (s, overlay s)) <$> order) bc
  = (bc', reqs, res) ->
  ran env bc reqs bc' res /\
  reqs `prefix_of` (straightRequest env d attr
                      <$> filter (fun s => lit d s = true) order) /\
  (res = None ->
   reqs = straightRequest env d attr <$> filter (fun s => lit d s = true) order).
Proof.
  revert bc bc' reqs res.
  induction order as [|s order IH]; intros bc bc' reqs res Hrun.
  - injection Hrun as <- <- <-. repeat split; [constructor | reflexivity].
  - cbn [fmap list_fmap drawHV] in Hrun. rewrite filter_cons.
    destruct (lit d s) eqn:Hlit; cbn [negb] in Hrun.
    + rewrite decide_True by reflexivity. cbn [fmap list_fmap].
      fold (straightRequest env d attr s) in Hrun.
      destruct (segmentHV env bc (hvSegArea env attr s) (hvSegType env s)
                  (styling d ++ overlay s)) as [bc1 [e|]] eqn:Hhv.
      * injection Hrun as <- <- <-. split; [|split].
        -- apply (ran_fail env bc (straightRequest env d attr s) bc1 e). exact Hhv.
        -- exists (straightRequest env d attr
                     <$> filter (fun s => lit d s = true) order). reflexivity.
        -- discriminate.
      * destruct (drawHV env d attr (styling d)
                    ((fun s => (s, overlay s)) <$> order) bc1)
          as [[bc2 reqs2] res2] eqn:Hrest.
        injection Hrun as <- <- <-.
        destruct (IH _ _ _ _ Hrest) as (Hran & Hpre & Hall).
        split; [|split].
        -- eapply ran_step; [exact Hhv | exact Hran].
        -- apply prefix_cons, Hpre.
        -- intros Hnone. rewrite (Hall Hnone). reflexivity.
    + rewrite decide_False by discriminate. apply IH, Hrun.
Qed.

(** So is the second loop. *)
Lemma drawDiagonal_ran d attr (order : list Segment) bc bc' reqs res :
  drawDiagonal env d attr (diagonalStyling d) order bc = (bc', reqs, res) ->
  ran env bc reqs bc' res /\
  reqs `prefix_of` (diagonalRequest env d attr
                      <$> filter (fun s => lit d s = true) order) /\
  (res = None ->
   reqs = diagonalRequest env d attr <$> filter (fun s => lit d s = true) order).
Proof.
  revert bc bc' reqs res.
  induction order as [|s order IH]; intros bc bc' reqs res Hrun.
  - injection Hrun as <- <- <-. repeat split; [constructor | reflexivity].
  - cbn [drawDiagonal] in Hrun. rewrite filter_cons.
    destruct (lit d s) eqn:Hlit; cbn [negb] in Hrun.
    + rewrite decide_True by reflexivity. cbn [fmap list_fmap].
      fold (diagonalRequest env d attr s) in Hrun.
      destruct (segmentDiagonal env bc (diaSegArea env attr s) (segSize env attr)
                  (diaSegType env s) (diagonalStyling d)) as [bc1 [e|]] eqn:Hdia.
      * injection Hrun as <- <- <-. split; [|split].
        -- apply (ran_fail env bc (diagonalRequest env d attr s) bc1 e). exact Hdia.
        -- exists (diagonalRequest env d attr
                     <$> filter (fun s => lit d s = true) order). reflexivity.
        -- discriminate.
      * destruct (drawDiagonal env d attr (diagonalStyling d) order bc1)
          as [[bc2 reqs2] res2] eqn:Hrest.
        injection Hrun as <- <- <-.
        destruct (IH _ _ _ _ Hrest) as (Hran & Hpre & Hall).
        split; [|split].
        -- eapply ran_step; [exact Hdia | exact Hran].
        -- apply prefix_cons, Hpre.
        -- intros Hnone. rewrite (Hall Hnone). reflexivity.
    + rewrite decide_False by discriminate. apply IH, Hrun.
Qed.

(** [Draw] on a canvas that [toBraille] accepts: the requests are one
    run from the new braille canvas; an error of the run is returned with
    the caller's canvas as it was, and otherwise the canvas and the result
    are those of the final copy. *)
Lemma Draw_ran (cvs : Canvas) (opts : list (Option CellOption)) d bc bcAr :
  toBraille env cvs = inr (bc, bcAr) ->
  exists bc' res,
    ran env bc (requests (Draw env cvs opts d)) bc' res /\
    requests (Draw env cvs opts d)
      `prefix_of` expectedRequests env (applyOptions opts d) (newAttributes env bcAr) /\
    (res = None ->
     requests (Draw env cvs opts d)
     = expectedRequests env (applyOptions opts d) (newAttributes env bcAr)) /\
    match res with
    | Some err => result (Draw env cvs opts d) = Some err /\
                  surface (Draw env cvs opts d) = cvs
    | None => (surface (Draw env cvs opts d), result (Draw env cvs opts d))
              = CopyTo env bc' cvs
    end.
Proof.
  intros Hbr. unfold Draw. rewrite Hbr.
  set (d' := applyOptions opts d). set (attr := newAttributes env bcAr).
  fold (styling d'). fold (diagonalStyling d'). rewrite segArgs_overlay.
  unfold expectedRequests.
  destruct (drawHV env d' attr (styling d')
              ((fun s => (s, overlay s)) <$> straightOrder) bc)
    as [[bc1 reqs1] res1] eqn:Hhv.
  destruct (drawHV_ran _ _ _ _ _ _ _ Hhv) as (Hran1 & Hpre1 & Hall1).
  destruct res1 as [err|].
  - exists bc1, (Some err). cbn [requests result surface].
    split; [exact Hran1|]. split; [apply prefix_app_r, Hpre1|].
    split; [discriminate|]. split; reflexivity.
  - rewrite <- (Hall1 eq_refl).
    destruct (drawDiagonal env d' attr (diagonalStyling d') [H; K; N; L] bc1)
      as [[bc2 reqs2] res2] eqn:Hdia.
    destruct (drawDiagonal_ran _ _ _ _ _ _ _ Hdia) as (Hran2 & Hpre2 & Hall2).
    destruct res2 as [err|].
    + exists bc2, (Some err). cbn [requests result surface].
      split; [exact (ran_app _ _ _ _ _ _ Hran1 Hran2)|].
      split; [apply prefix_app, Hpre2|].
      split; [discriminate|]. split; reflexivity.
    + exists bc2, None.
      destruct (CopyTo env bc2 cvs) as [cvs' res'] eqn:Hcopy.
      cbn [requests result surface].
      split; [exact (ran_app _ _ _ _ _ _ Hran1 Hran2)|].
      split; [apply prefix_app, Hpre2|].
      split; [intros _; rewrite (Hall2 eq_refl); reflexivity | reflexivity].
Qed.

End DrawFacts.

(** C3.  On a canvas that sizing accepts, the requests of [Draw] follow the
    fixed order: one straight request for every lit segment among A1, A2, F,
    J, B, G1, G2, E, M, C, D1, D2, with the skip-slopes option at 2 for J,
    G1, G2 and M, the reverse-slopes option for B, C, D1 and D2 and no
    overlay for A1, A2, F and E, and then one diagonal request for every lit
    segment among H, K, N, L.  The requests made are always an initial part
    of that sequence, and all of it when [Draw] succeeds or when none of its
    requests fails. *)
Theorem Draw_request_order
    {CellOption Canvas BrailleCanvas SegmentType DiagonalType Attributes : Type}
    (env : Collaborators CellOption Canvas BrailleCanvas
             SegmentType DiagonalType Attributes)
    (cvs : Canvas) (opts : list (Option CellOption)) (d : Display CellOption)
    (bc : BrailleCanvas) (bcAr : Rectangle) :
  toBraille env cvs = inr (bc, bcAr) ->
  let expected :=
    expectedRequests env (applyOptions opts d) (newAttributes env bcAr) in
  requests (Draw env cvs opts d) `prefix_of` expected /\
  (result (Draw env cvs opts d) = None -> requests (Draw env cvs opts d) = expected) /\
  ((forall pre req post, expected = pre ++ req :: post ->
      (issue env req (replay env pre bc)).2 = None) ->
   requests (Draw env cvs opts d) = expected).
Proof.
  intros Hbr expected.
  destruct (Draw_ran env cvs opts d bc bcAr Hbr) as (bc' & res & Hran & Hpre & Hall & Hres).
  fold expected in Hpre, Hall.
  split; [exact Hpre|]. split.
  - intros Hok. destruct res as [err|]; [|exact (Hall eq_refl)].
    destruct Hres as [Herr _]. rewrite Herr in Hok. discriminate.
  - intros Hgood. destruct res as [err|]; [|exact (Hall eq_refl)].
    destruct (ran_result env _ _ _ _ Hran) as [_ (pre & req & e & Hsplit & Hfail & _)].
    destruct Hpre as [post Hpost]. rewrite Hsplit, <- app_assoc in Hpost.
    rewrite (Hgood pre req post Hpost) in Hfail. discriminate.
Qed.

Lemma Draw_request_order_witness :
  requests (Draw standIn (Rect 0 0 80 24, []) []
              (SetCharacter (rune "K") (New [])).1)
  = expectedRequests standIn (SetCharacter (rune "K") (New [])).1 (Rect 0 0 57 95).
Proof.
  refine (proj1 (proj2 (Draw_request_order standIn (Rect 0 0 80 24, []) []
                          (SetCharacter (rune "K") (New [])).1
                          (Rect 0 0 58 96, []) (Rect 0 0 57 95) _)) _).
  - vm_compute. reflexivity.
  - vm_compute. reflexivity.
Defined.

(** C4.  A call to [Draw] that fails before the final copy leaves the
    caller's canvas as it was.  When sizing fails, the wrapped error is
    returned and no request is made.  When a request fails, it is the last
    request made and the error returned names its segment.  When no request
    fails, the canvas and the result are those of the final copy, the only
    step that writes to the caller's canvas. *)
Theorem Draw_all_or_nothing
    {CellOption Canvas BrailleCanvas SegmentType DiagonalType Attributes : Type}
    (env : Collaborators CellOption Canvas BrailleCanvas
             SegmentType DiagonalType Attributes)
    (cvs : Canvas) (opts : list (Option CellOption)) (d : Display CellOption) :
  (forall e, toBraille env cvs = inl e ->
     (exists e', e = ErrRequired e' \/ e = ErrBrailleNew e') /\
     result (Draw env cvs opts d) = Some e /\
     requests (Draw env cvs opts d) = [] /\
     surface (Draw env cvs opts d) = cvs) /\
  (forall bc bcAr pre req post e,
     toBraille env cvs = inr (bc, bcAr) ->
     requests (Draw env cvs opts d) = pre ++ req :: post ->
     (issue env req (replay env pre bc)).2 = Some e ->
     post = [] /\
     result (Draw env cvs opts d) = Some (wrapFailure req e) /\
     surface (Draw env cvs opts d) = cvs) /\
  (forall bc bcAr,
     toBraille env cvs = inr (bc, bcAr) ->
     (forall pre req post,
        requests (Draw env cvs opts d) = pre ++ req :: post ->
        (issue env req (replay env pre bc)).2 = None) ->
     (surface (Draw env cvs opts d), result (Draw env cvs opts d))
     = CopyTo env (replay env (requests (Draw env cvs opts d)) bc) cvs).
Proof.
  split; [|split].
  - intros e Hbr. split.
    + unfold toBraille in Hbr.
      destruct (Required (canvasArea env cvs)) as [ar [err|]].
      * injection Hbr as <-. eauto.
      * destruct (brailleNew env ar) as [err|bc]; [|discriminate].
        injection Hbr as <-. eauto.
    + unfold Draw. rewrite Hbr. repeat split.
  - intros bc bcAr pre req post e Hbr Hsplit Hfail.
    destruct (Draw_ran env cvs opts d bc bcAr Hbr) as (bc' & res & Hran & _ & _ & Hres).
    destruct (ran_failure env _ _ _ _ Hran pre req post e Hsplit Hfail) as [-> ->].
    destruct Hres as [Herr Hsurf]. repeat split; assumption.
  - intros bc bcAr Hbr Hgood.
    destruct (Draw_ran env cvs opts d bc bcAr Hbr) as (bc' & res & Hran & _ & _ & Hres).
    destruct (ran_result env _ _ _ _ Hran) as [-> Hlast].
    destruct res as [err|]; [|exact Hres].
    destruct Hlast as (pre & req & e & Hsplit & Hfail & _).
    rewrite (Hgood pre req [] Hsplit) in Hfail. discriminate.
Qed.

Lemma Draw_all_or_nothing_witness :
  result (Draw standIn (Rect 0 0 6 5, []) [] (SetCharacter (rune "K") (New [])).1)
  = Some (ErrSegmentHV F (ErrExternal "empty area")) /\
  surface (Draw standIn (Rect 0 0 6 5, []) [] (SetCharacter (rune "K") (New [])).1)
  = (Rect 0 0 6 5, []).
Proof.
  refine (proj2 (proj1 (proj2 (Draw_all_or_nothing standIn (Rect 0 0 6 5, []) []
                                 (SetCharacter (rune "K") (New [])).1))
                   (Rect 0 0 12 20, []) (Rect 0 0 12 20) []
                   (RequestHV F (Rect 8 8 8 8) Vertical []) []
                   (ErrExternal "empty area") _ _ _)).
  - vm_compute. reflexivity.
  - vm_compute. reflexivity.
  - vm_compute. reflexivity.
Defined.

(** C5, as the code has it.  [Draw] never changes which segments are lit.
    It stores the options it is given in the display, so the cell options
    become those of the last option, and a call without options leaves the
    display as it was. *)
Theorem Draw_keeps_segments
    {CellOption Canvas BrailleCanvas SegmentType DiagonalType Attributes : Type}
    (env : Collaborators CellOption Canvas BrailleCanvas
             SegmentType DiagonalType Attributes)
    (cvs : Canvas) (opts : list (Option CellOption)) (d : Display CellOption) :
  display (Draw env cvs opts d) = applyOptions opts d /\
  segments (display (Draw env cvs opts d)) = segments d /\
  cellOpts (display (Draw env cvs opts d))
  = match last opts with
    | Some (CellOpts cOpts) => cOpts
    | None => cellOpts d
    end /\
  display (Draw env cvs [] d) = d.
Proof.
  assert (Hdisp : forall opts, display (Draw env cvs opts d) = applyOptions opts d).
  { intros opts'. unfold Draw.
    destruct (toBraille env cvs) as [err|[bc bcAr]]; [reflexivity|].
    destruct (drawHV _ _ _ _ _ _) as [[bc1 reqs1] [err|]]; [reflexivity|].
    destruct (drawDiagonal _ _ _ _ _ _) as [[bc2 reqs2] [err|]]; [reflexivity|].
    destruct (CopyTo env bc2 cvs). reflexivity. }
  rewrite !Hdisp. split; [reflexivity|]. split; [apply segments_applyOptions|].
  split; [|reflexivity].
  clear Hdisp. revert d. induction opts as [|[co] opts IH]; intros d; [reflexivity|].
  change (applyOptions (CellOpts co :: opts) d)
    with (applyOptions opts (set (CellOpts co) d)).
  rewrite IH. destruct opts as [|o opts]; [reflexivity|].
  rewrite last_cons_cons.
  destruct (last (o :: opts)) as [[c]|] eqn:Hlast; [reflexivity|].
  apply last_None in Hlast. discriminate.
Qed.

(** A call with a cell option changes the display, and does so even when
    the canvas is refused. *)
Lemma Draw_stores_options :
  display (Draw standIn (Rect 0 0 80 24, []) [CellOpts [1%nat]] (New []))
  <> New [] /\
  display (Draw standIn (Rect 0 0 5 5, []) [CellOpts [1%nat]] (New []))
  <> New [].
Proof.
  split; intros Heq; apply (f_equal cellOpts) in Heq;
    vm_compute in Heq; discriminate.
Qed.

(** * Further properties *)

(** ** Segment names *)

Lemma segmentNames_entry (s : Segment) (n : string) :
  segmentNames !! s = Some n <-> (s, n) ∈ segmentNamesEntries.
Proof.
  unfold segmentNames. symmetry. apply elem_of_list_to_map.
  apply (bool_decide_unpack _). vm_compute. exact I.
Qed.

Lemma segmentNames_keys (s : Segment) :
  is_Some (segmentNames !! s) <-> invalidSegment s = false.
Proof.
  split.
  - intros [n Hn%segmentNames_entry].
    assert (Hall : Forall (fun e : Z * string => invalidSegment e.1 = false)
                     segmentNamesEntries).
    { apply (bool_decide_unpack _). vm_compute. exact I. }
    rewrite Forall_forall in Hall. apply (Hall _ Hn).
  - intros Hs%invalidSegment_false.
    assert (Hall : Forall (fun s => is_Some (segmentNames !! s)) (seqZ 1 16)).
    { apply (bool_decide_unpack _). vm_compute. exact I. }
    rewrite Forall_forall in Hall. apply Hall, elem_of_seqZ.
    unfold segmentUnknown, segmentMax in Hs. lia.
Qed.

(** X1.  [String] answers SegmentUnknown exactly for the values that the
    mutators refuse: the names and the validation range agree. *)
Theorem String_unknown_iff_invalid (s : Segment) :
  Segment_String s = "SegmentUnknown"%string <-> invalidSegment s = true.
Proof.
  unfold Segment_String. split.
  - intros Hname. destruct (invalidSegment s) eqn:Hs; [reflexivity|].
    apply invalidSegment_false in Hs.
    assert (Hall : Forall (fun s => Segment_String s <> "SegmentUnknown"%string)
                     (seqZ 1 16)).
    { apply (bool_decide_unpack _). vm_compute. exact I. }
    rewrite Forall_forall in Hall. exfalso. apply (Hall s); [|exact Hname].
    apply elem_of_seqZ. unfold segmentUnknown, segmentMax in Hs. lia.
  - intros Hs. destruct (segmentNames !! s) as [n|] eqn:Hn; [|reflexivity].
    assert (Hv : invalidSegment s = false) by (apply segmentNames_keys; eauto).
    congruence.
Qed.

(** X2.  Two valid segments with the same name are the same segment. *)
Theorem String_injective (s1 s2 : Segment) :
  invalidSegment s1 = false -> invalidSegment s2 = false ->
  Segment_String s1 = Segment_String s2 -> s1 = s2.
Proof.
  intros H1%invalidSegment_false H2%invalidSegment_false.
  assert (Hall : Forall (fun a => Forall (fun b =>
                   Segment_String a = Segment_String b -> a = b) (seqZ 1 16))
                   (seqZ 1 16)).
  { apply (bool_decide_unpack _). vm_compute. exact I. }
  rewrite Forall_forall in Hall.
  assert (Hs1 : s1 ∈ seqZ 1 16)
    by (apply elem_of_seqZ; unfold segmentUnknown, segmentMax in H1; lia).
  specialize (Hall s1 Hs1). rewrite Forall_forall in Hall.
  apply Hall, elem_of_seqZ. unfold segmentUnknown, segmentMax in H2. lia.
Qed.

Lemma String_injective_witness : G1 = G1.
Proof.
  apply (String_injective G1 G1); reflexivity.
Defined.

(** X3.  [AllSegments] lists exactly the valid segments, each once: 16 in
    all. *)
Theorem AllSegments_valid :
  (forall s : Segment, s ∈ AllSegments <-> invalidSegment s = false) /\
  NoDup AllSegments /\
  length AllSegments = 16%nat.
Proof.
  split; [|split].
  - intros s. unfold AllSegments. rewrite <- segmentNames_keys.
    rewrite list_elem_of_fmap. split.
    + intros [[k n] [-> Hin]]. apply elem_of_map_to_list in Hin. eauto.
    + intros [n Hn]. exists (s, n). split; [reflexivity|].
      apply elem_of_map_to_list. exact Hn.
  - apply NoDup_fst_map_to_list.
  - vm_compute. reflexivity.
Qed.

(** ** More on the segment mutators *)

Section MutatorFacts.

Context {CellOption : Type}.
Implicit Types (d : Display CellOption) (s : Segment).

Lemma mutate_valid (m : Mutator) s d :
  invalidSegment s = false ->
  mutate m s d
  = (mkDisplay (<[s := match m with
                       | DoSet => true
                       | DoClear => false
                       | DoToggle => negb (lit d s)
                       end]> (segments d)) (cellOpts d), None).
Proof.
  intros Hs. destruct m; unfold mutate, SetSegment, ClearSegment, ToggleSegment;
    rewrite Hs; [reflexivity | reflexivity |].
  destruct (lit d s); reflexivity.
Qed.


End MutatorFacts.

(** X4.  A mutator that succeeds changes the segment it is given and
    nothing else: [SetSegment] makes it lit, [ClearSegment] unlit,
    [ToggleSegment] the opposite of what it was; every other segment and the
    cell options stay as they were. *)
Theorem mutate_frame {CellOption : Type} (m : Mutator) (s : Segment)
    (d : Display CellOption) :
  invalidSegment s = false ->
  lit (mutate m s d).1 s
  = match m with
    | DoSet => true
    | DoClear => false
    | DoToggle => negb (lit d s)
    end /\
  (forall s', s' <> s -> lit (mutate m s d).1 s' = lit d s') /\
  cellOpts (mutate m s d).1 = cellOpts d.
Proof.
  intros Hs. rewrite (mutate_valid m s d Hs). cbn [fst]. split; [|split].
  - rewrite lit_mk, lookup_insert_eq. reflexivity.
  - intros s' Hne. rewrite lit_mk, lookup_insert_ne by congruence. reflexivity.
  - reflexivity.
Qed.

Lemma mutate_frame_witness :
  lit (mutate DoToggle K (SetSegment K (New (CellOption := nat) [])).1).1 K = false.
Proof.
  refine (proj1 (mutate_frame DoToggle K (SetSegment K (New []) ).1 _)).
  reflexivity.
Defined.

(** X5.  Mutators on two different valid segments commute: either order
    leaves the same display. *)
Theorem mutate_commute {CellOption : Type} (m1 m2 : Mutator) (s1 s2 : Segment)
    (d : Display CellOption) :
  invalidSegment s1 = false -> invalidSegment s2 = false -> s1 <> s2 ->
  (mutate m1 s1 (mutate m2 s2 d).1).1 = (mutate m2 s2 (mutate m1 s1 d).1).1.
Proof.
  intros H1 H2 Hne.
  rewrite (mutate_valid m2 s2 d H2), (mutate_valid m1 s1 d H1). cbn [fst].
  rewrite (mutate_valid m1 s1 _ H1), (mutate_valid m2 s2 _ H2). cbn [fst segments cellOpts].
  rewrite !lit_mk, !lookup_insert_ne by congruence.
  fold (lit d s1). fold (lit d s2).
  f_equal. apply insert_insert_ne. congruence.
Qed.

Lemma mutate_commute_witness :
  (mutate DoToggle A1 (mutate DoClear B (New (CellOption := nat) [])).1).1
  = (mutate DoClear B (mutate DoToggle A1 (New [])).1).1.
Proof.
  apply (mutate_commute DoToggle DoClear A1 B (New [])).
  - reflexivity.
  - reflexivity.
  - unfold A1, B. lia.
Defined.

(** ** The keys of the segment map *)

Section KeysValid.

Context {CellOption : Type}.
Implicit Types (d : Display CellOption) (s : Segment).




End KeysValid.



(** ** Composing characters *)

Section CharacterFacts.

Context {CellOption : Type}.
Implicit Types (d : Display CellOption) (s : Segment).

(** The map after the loop of [SetCharacter] over valid segments. *)
Lemma segments_setSegments (seg : list Segment) d (k : Segment) :
  Forall (fun s => invalidSegment s = false) seg ->
  segments (setSegments seg d).1 !! k
  = if bool_decide (k ∈ seg) then Some true else segments d !! k.
Proof.
  revert d. induction seg as [|a seg IH]; intros d Hall; [reflexivity|].
  apply Forall_cons in Hall as [Ha Hall].
  cbn [setSegments]. unfold SetSegment. rewrite Ha.
  rewrite (IH _ Hall). cbn [segments].
  destruct (decide (k ∈ seg)) as [Hin|Hnin].
  - rewrite !bool_decide_eq_true_2; [reflexivity | right; exact Hin | exact Hin].
  - rewrite (bool_decide_eq_false_2 _ Hnin).
    destruct (decide (a = k)) as [->|Hne].
    + rewrite lookup_insert_eq, bool_decide_eq_true_2 by left. reflexivity.
    + rewrite lookup_insert_ne by exact Hne.
      rewrite bool_decide_eq_false_2; [reflexivity|].
      rewrite elem_of_cons. intros [->|Hin]; [apply Hne; reflexivity | exact (Hnin Hin)].
Qed.

Lemma setSegments_display (seg : list Segment) d :
  Forall (fun s => invalidSegment s = false) seg ->
  forall d', cellOpts d' = cellOpts d ->
    (forall k, segments d' !! k
               = if bool_decide (k ∈ seg) then Some true else segments d !! k) ->
    d' = (setSegments seg d).1.
Proof.
  intros Hall d' Hco Hseg.
  destruct (setSegments_valid seg d Hall) as (_ & Hco' & _).
  destruct d' as [m' co'], (setSegments seg d).1 as [m co] eqn:Hd.
  cbn [cellOpts segments] in *. f_equal; [|congruence].
  apply map_eq. intros k. rewrite Hseg.
  pose proof (segments_setSegments seg d k Hall) as Hk.
  rewrite Hd in Hk. cbn [segments] in Hk. congruence.
Qed.

End CharacterFacts.

(** X7.  A character set on a cleared display shows that character alone:
    the lit segments are exactly those of its table entry, whatever the
    display held before [Clear]. *)
Theorem SetCharacter_after_Clear {CellOption : Type}
    (d : Display CellOption) (opts : list (Option CellOption))
    (c : Z) (seg : list Segment) :
  characterSegments !! c = Some seg ->
  (SetCharacter c (Clear opts d)).2 = None /\
  forall s, lit (SetCharacter c (Clear opts d)).1 s = true <-> s ∈ seg.
Proof.
  intros Hc. unfold SetCharacter. rewrite Hc.
  destruct (setSegments_valid seg (Clear opts d) (characterSegments_valid _ _ Hc))
    as (Hres & _ & Hlit).
  split; [exact Hres|]. intros s. rewrite Hlit.
  unfold Clear. rewrite lit_mk, lookup_empty. cbn [default orb].
  apply bool_decide_eq_true.
Qed.

Lemma SetCharacter_after_Clear_witness :
  lit (SetCharacter (rune "8")
         (Clear [] (SetCharacter (rune "X") (New (CellOption := nat) [])).1)).1 A1
  = true.
Proof.
  refine (proj2 (proj2 (SetCharacter_after_Clear
                          (SetCharacter (rune "X") (New [])).1 [] (rune "8")
                          [A1; A2; F; B; G1; G2; E; C; D1; D2] _) A1) _).
  - vm_compute. reflexivity.
  - left.
Defined.

(** X8.  Setting characters accumulates like a union of their entries:
    setting the same supported character twice is setting it once, and two
    supported characters set in either order leave the same display. *)
Theorem SetCharacter_union {CellOption : Type}
    (d : Display CellOption) (c1 c2 : Z) :
  is_Some (characterSegments !! c1) -> is_Some (characterSegments !! c2) ->
  (SetCharacter c1 (SetCharacter c1 d).1).1 = (SetCharacter c1 d).1 /\
  (SetCharacter c2 (SetCharacter c1 d).1).1 = (SetCharacter c1 (SetCharacter c2 d).1).1.
Proof.
  intros [seg1 H1] [seg2 H2]. unfold SetCharacter. rewrite H1, H2.
  pose proof (characterSegments_valid _ _ H1) as V1.
  pose proof (characterSegments_valid _ _ H2) as V2.
  split.
  - symmetry. apply (setSegments_display seg1 _ V1); [reflexivity|].
    intros k. rewrite (segments_setSegments seg1 d k V1).
    destruct (bool_decide (k ∈ seg1)); reflexivity.
  - apply (setSegments_display seg1 _ V1).
    + destruct (setSegments_valid seg2 (setSegments seg1 d).1 V2) as (_ & -> & _).
      destruct (setSegments_valid seg1 d V1) as (_ & -> & _).
      destruct (setSegments_valid seg2 d V2) as (_ & -> & _). reflexivity.
    + intros k. rewrite (segments_setSegments seg2 _ k V2),
        (segments_setSegments seg1 d k V1), (segments_setSegments seg2 d k V2).
      destruct (bool_decide (k ∈ seg1)), (bool_decide (k ∈ seg2)); reflexivity.
Qed.

Lemma SetCharacter_union_witness :
  (SetCharacter (rune "-") (SetCharacter (rune "|") (New (CellOption := nat) [])).1).1
  = (SetCharacter (rune "|") (SetCharacter (rune "-") (New [])).1).1.
Proof.
  refine (proj2 (SetCharacter_union (New []) (rune "|") (rune "-") _ _)).
  - exists [J; M]. vm_compute. reflexivity.
  - exists [G1; G2]. vm_compute. reflexivity.
Defined.

(** ** More on the decoder *)

Lemma lor_ge_128 (a b : Z) :
  0 <= a -> 0 <= b -> 128 <= a \/ 128 <= b -> 128 <= Z.lor a b.
Proof.
  intros Ha Hb Hab.
  assert (Hlog : 7 <= Z.log2 (Z.lor a b)).
  { rewrite Z.log2_lor by assumption.
    destruct Hab as [Hge|Hge]; apply (Z.log2_le_mono 128) in Hge;
      change (Z.log2 128) with 7 in Hge; lia. }
  assert (Hpos : 0 < Z.lor a b).
  { destruct (Z.lt_ge_cases 0 (Z.lor a b)) as [Hlt|Hle]; [exact Hlt|].
    rewrite (Z.log2_nonpos _ Hle) in Hlog. lia. }
  apply (Z.log2_le_pow2 _ 7 Hpos) in Hlog. exact Hlog.
Qed.

(** The leading bytes of sequences and the bounds of their second byte. *)
Lemma first_spec (p0 sz lo hi : Z) :
  utf8.first p0 = Some (sz, lo, hi) ->
  128 <= lo /\ hi <= 191 /\
  ((sz = 2 /\ 194 <= p0 <= 223) \/
   (sz = 3 /\ ((p0 = 224 /\ lo = 160) \/ 225 <= p0 <= 239)) \/
   (sz = 4 /\ ((p0 = 240 /\ lo = 144) \/ 241 <= p0 <= 244))).
Proof.
  unfold utf8.first.
  repeat match goal with
         | |- context [if ?c then _ else _] => destruct c eqn:?
         end;
    intros [= <- <- <-];
    rewrite ?andb_true_iff, ?Z.leb_le, ?Z.eqb_eq in *; lia.
Qed.

(** One step of the decoder: it yields one rune and skips at most three
    more bytes; a byte below 128 is its own rune, and any other leading byte
    yields a rune of 128 or more. *)
Lemma runes_step (c0 : Byte.byte) (t0 : list Byte.byte) :
  exists (r : Z) (k : nat),
    utf8.runes (c0 :: t0) = r :: utf8.runes (drop k t0) /\
    (utf8.byte_to_Z c0 < 128 -> r = utf8.byte_to_Z c0 /\ k = 0%nat) /\
    (128 <= utf8.byte_to_Z c0 -> 128 <= r).
Proof.
  assert (Hbyte : forall c, 0 <= utf8.byte_to_Z c) by (intros c; unfold utf8.byte_to_Z; lia).
  cbn [utf8.runes]. set (p0 := utf8.byte_to_Z c0) in *.
  destruct (Z.ltb_spec p0 128) as [Hlow|Hhigh].
  { exists p0, 0%nat. repeat split; lia. }
  assert (Hfail : exists (r : Z) (k : nat),
             utf8.RuneError :: utf8.runes t0 = r :: utf8.runes (drop k t0) /\
             (p0 < 128 -> r = p0 /\ k = 0%nat) /\ (128 <= p0 -> 128 <= r)).
  { exists utf8.RuneError, 0%nat. repeat split; try lia. unfold utf8.RuneError. lia. }
  destruct (utf8.first p0) as [[[sz lo] hi]|] eqn:Hfirst; [|exact Hfail].
  apply first_spec in Hfirst as (Hlo & Hhi & Hsz).
  destruct t0 as [|c1 t1]; [exact Hfail|].
  set (b1 := utf8.byte_to_Z c1).
  destruct ((b1 <? lo) || (hi <? b1)) eqn:Hb1; [exact Hfail|].
  apply orb_false_iff in Hb1 as [Hb1lo%Z.ltb_ge Hb1hi%Z.ltb_ge].
  assert (Hm5 : Z.land p0 31 = p0 mod 2 ^ 5) by (apply (Z.land_ones p0 5); lia).
  assert (Hm4 : Z.land p0 15 = p0 mod 2 ^ 4) by (apply (Z.land_ones p0 4); lia).
  assert (Hm3 : Z.land p0 7 = p0 mod 2 ^ 3) by (apply (Z.land_ones p0 3); lia).
  assert (Hm6 : Z.land b1 63 = b1 mod 2 ^ 6) by (apply (Z.land_ones b1 6); lia).
  change (2 ^ 5) with 32 in Hm5. change (2 ^ 4) with 16 in Hm4.
  change (2 ^ 3) with 8 in Hm3. change (2 ^ 6) with 64 in Hm6.
  assert (Hland : forall x m, 0 <= m -> 0 <= Z.land x m)
    by (intros x m Hm; apply Z.land_nonneg; right; exact Hm).
  assert (Hshl : forall x n, 0 <= x -> 0 <= Z.shiftl x n)
    by (intros x n Hx; apply Z.shiftl_nonneg; exact Hx).
  destruct (Z.leb_spec sz 2) as [Hsz2|Hsz2].
  { exists (Z.lor (Z.shiftl (Z.land p0 31) 6) (Z.land b1 63)), 1%nat.
    split; [reflexivity|]. split; [lia|]. intros _.
    apply lor_ge_128; [apply Hshl, Hland; lia | apply Hland; lia |]. left.
    rewrite Z.shiftl_mul_pow2 by lia. change (2 ^ 6) with 64. rewrite Hm5.
    assert (194 <= p0 <= 223) by lia. Z.to_euclidean_division_equations. lia. }
  destruct t1 as [|c2 t2]; [exact Hfail|].
  set (b2 := utf8.byte_to_Z c2).
  destruct (utf8.continuation b2) eqn:Hb2; cbn [negb]; [|exact Hfail].
  destruct (Z.leb_spec sz 3) as [Hsz3|Hsz3].
  { exists (Z.lor (Z.shiftl (Z.land p0 15) 12)
              (Z.lor (Z.shiftl (Z.land b1 63) 6) (Z.land b2 63))), 2%nat.
    split; [reflexivity|]. split; [lia|]. intros _.
    assert (Hinner : 0 <= Z.lor (Z.shiftl (Z.land b1 63) 6) (Z.land b2 63)).
    { apply Z.lor_nonneg. split; [apply Hshl, Hland; lia | apply Hland; lia]. }
    apply lor_ge_128; [apply Hshl, Hland; lia | exact Hinner |].
    assert (Hcase : (p0 = 224 /\ lo = 160) \/ 225 <= p0 <= 239) by lia.
    destruct Hcase as [[Hp0 Hlo160]|Hp0].
    - right. apply lor_ge_128; [apply Hshl, Hland; lia | apply Hland; lia |]. left.
      rewrite Z.shiftl_mul_pow2 by lia. change (2 ^ 6) with 64. rewrite Hm6.
      assert (160 <= b1 <= 191) by lia. Z.to_euclidean_division_equations. lia.
    - left. rewrite Z.shiftl_mul_pow2 by lia. change (2 ^ 12) with 4096. rewrite Hm4.
      Z.to_euclidean_division_equations. lia. }
  destruct t2 as [|c3 t3]; [exact Hfail|].
  set (b3 := utf8.byte_to_Z c3).
  destruct (utf8.continuation b3) eqn:Hb3; cbn [negb]; [|exact Hfail].
  exists (Z.lor (Z.shiftl (Z.land p0 7) 18)
            (Z.lor (Z.shiftl (Z.land b1 63) 12)
               (Z.lor (Z.shiftl (Z.land b2 63) 6) (Z.land b3 63)))), 3%nat.
  split; [reflexivity|]. split; [lia|]. intros _.
  assert (Hin2 : 0 <= Z.lor (Z.shiftl (Z.land b2 63) 6) (Z.land b3 63)).
  { apply Z.lor_nonneg. split; [apply Hshl, Hland; lia | apply Hland; lia]. }
  assert (Hin1 : 0 <= Z.lor (Z.shiftl (Z.land b1 63) 12)
                        (Z.lor (Z.shiftl (Z.land b2 63) 6) (Z.land b3 63))).
  { apply Z.lor_nonneg. split; [apply Hshl, Hland; lia | exact Hin2]. }
  apply lor_ge_128; [apply Hshl, Hland; lia | exact Hin1 |].
  assert (Hcase : (p0 = 240 /\ lo = 144) \/ 241 <= p0 <= 244) by lia.
  destruct Hcase as [[Hp0 Hlo144]|Hp0].
  - right. apply lor_ge_128; [apply Hshl, Hland; lia | exact Hin2 |]. left.
    rewrite Z.shiftl_mul_pow2 by lia. change (2 ^ 12) with 4096. rewrite Hm6.
    assert (144 <= b1 <= 191) by lia. Z.to_euclidean_division_equations. lia.
  - left. rewrite Z.shiftl_mul_pow2 by lia. change (2 ^ 18) with 262144. rewrite Hm3.
    Z.to_euclidean_division_equations. lia.
Qed.


(** Runes below 128 come from bytes below 128 only. *)
Lemma runes_ascii_inv (s : list Byte.byte) :
  Forall (fun r => r < 128) (utf8.runes s) ->
  Forall (fun b => utf8.byte_to_Z b < 128) s.
Proof.
  induction s as [|c0 t0 IH]; intros Hall; [constructor|].
  destruct (runes_step c0 t0) as (r & k & Heq & Hlow & Hhigh).
  rewrite Heq in Hall. apply Forall_cons in Hall as [Hr Hrest].
  destruct (Z.lt_ge_cases (utf8.byte_to_Z c0) 128) as [Hc0|Hc0].
  - destruct (Hlow Hc0) as [_ ->]. rewrite drop_0 in Hrest.
    constructor; [exact Hc0 | exact (IH Hrest)].
  - specialize (Hhigh Hc0). lia.
Qed.

Lemma byte_of_to_Z (b : Byte.byte) : utf8.byte_of_Z (utf8.byte_to_Z b) = b.
Proof. destruct b; reflexivity. Qed.

(** ** More on the queries *)

Lemma supported_lookup (r : Z) :
  (supported r = true <-> is_Some (characterSegments !! r)) /\
  (supported r = false <-> characterSegments !! r = None).
Proof.
  unfold supported. destruct (characterSegments !! r) as [seg|]; split; split;
    try reflexivity; try discriminate; eauto.
  intros [x Hx]. discriminate.
Qed.

(** The map that the loop of [SupportsChars] builds. *)
Lemma unsupported_lookup (rs : list Z) (acc : gmap Z bool) (r : Z) :
  fold_left
    (fun unsupp r =>
       match characterSegments !! r with
       | None => <[r := true]> unsupp
       | Some _ => unsupp
       end) rs acc !! r
  = if bool_decide (r ∈ rs) && negb (supported r) then Some true else acc !! r.
Proof.
  revert acc. induction rs as [|a rs IH]; intros acc; cbn [fold_left]; [reflexivity|].
  rewrite IH. destruct (decide (r ∈ rs)) as [Hin|Hnin].
  - rewrite !bool_decide_eq_true_2; [|right; exact Hin|exact Hin].
    cbn [andb]. destruct (negb (supported r)) eqn:Hs; [reflexivity|].
    apply negb_false_iff in Hs.
    destruct (characterSegments !! a) eqn:Ha; [reflexivity|].
    rewrite lookup_insert_ne; [reflexivity|]. intros ->.
    unfold supported in Hs. rewrite Ha in Hs. discriminate.
  - rewrite (bool_decide_eq_false_2 _ Hnin). cbn [andb].
    destruct (decide (a = r)) as [->|Hne].
    + rewrite bool_decide_eq_true_2 by left. cbn [andb]. unfold supported.
      destruct (characterSegments !! r); cbn [negb]; [reflexivity|].
      apply lookup_insert_eq.
    + rewrite bool_decide_eq_false_2.
      * cbn [andb]. destruct (characterSegments !! a); [reflexivity|].
        apply lookup_insert_ne. exact Hne.
      * rewrite elem_of_cons. intros [->|Hin]; [apply Hne; reflexivity | exact (Hnin Hin)].
Qed.

Lemma SupportsChars_elem (s : list Byte.byte) (r : Z) :
  r ∈ (SupportsChars s).2 <-> r ∈ utf8.runes s /\ supported r = false.
Proof.
  unfold SupportsChars. cbn [snd]. rewrite list_elem_of_fmap. split.
  - intros [[k b] [-> Hin]]. apply elem_of_map_to_list in Hin.
    unfold unsupported in Hin. rewrite unsupported_lookup, lookup_empty in Hin.
    cbn [fst]. destruct (bool_decide (k ∈ utf8.runes s)) eqn:Hk; [|discriminate].
    destruct (supported k); [discriminate|].
    apply bool_decide_eq_true in Hk. split; [exact Hk | reflexivity].
  - intros [Hin Hs]. exists (r, true). split; [reflexivity|].
    apply elem_of_map_to_list. unfold unsupported.
    rewrite unsupported_lookup, bool_decide_eq_true_2, Hs by exact Hin. reflexivity.
Qed.

(** X9.  [SupportsChars] reports exactly the runes of the string that have
    no table entry, each once, and answers true exactly when there is none,
    that is when every rune of the string has an entry. *)
Theorem SupportsChars_spec (s : list Byte.byte) :
  NoDup (SupportsChars s).2 /\
  (forall r, r ∈ (SupportsChars s).2
             <-> r ∈ utf8.runes s /\ characterSegments !! r = None) /\
  ((SupportsChars s).1 = true <-> (SupportsChars s).2 = []) /\
  ((SupportsChars s).1 = true
   <-> forall r, r ∈ utf8.runes s -> is_Some (characterSegments !! r)).
Proof.
  assert (Hok : (SupportsChars s).1 = true <-> (SupportsChars s).2 = []).
  { unfold SupportsChars. cbn [fst snd]. rewrite bool_decide_eq_true.
    apply length_zero_iff_nil. }
  split; [|split; [|split]].
  - unfold SupportsChars. cbn [snd]. apply NoDup_fst_map_to_list.
  - intros r. rewrite SupportsChars_elem.
    rewrite (proj2 (supported_lookup r)). reflexivity.
  - exact Hok.
  - rewrite Hok. split.
    + intros Hnil r Hr.
      apply (proj1 (supported_lookup r)).
      destruct (supported r) eqn:Hs; [reflexivity|].
      assert (Hin : r ∈ (SupportsChars s).2) by (apply SupportsChars_elem; auto).
      rewrite Hnil in Hin. inversion Hin.
    + intros Hall. destruct (SupportsChars s).2 as [|r rest] eqn:Hres; [reflexivity|].
      assert (Hin : r ∈ (SupportsChars s).2) by (rewrite Hres; left).
      apply SupportsChars_elem in Hin as [Hr Hs].
      apply Hall, supported_lookup in Hr. congruence.
Qed.

Lemma SupportsChars_true (s : list Byte.byte) :
  (SupportsChars s).1 = true <-> Forall (fun r => supported r = true) (utf8.runes s).
Proof.
  split.
  - intros Hok. unfold SupportsChars in Hok. cbn [fst] in Hok.
    apply bool_decide_eq_true, length_zero_iff_nil in Hok.
    apply Forall_forall. intros r Hr.
    destruct (supported r) eqn:Hs; [reflexivity|].
    assert (Hin : r ∈ (SupportsChars s).2) by (apply SupportsChars_elem; auto).
    unfold SupportsChars in Hin. cbn [snd] in Hin. rewrite Hok in Hin. inversion Hin.
  - intros Hall. unfold SupportsChars, unsupported.
    rewrite unsupported_all_supported by exact Hall. reflexivity.
Qed.

Lemma SetCharacter_supported {CellOption : Type} (r : Z) (d : Display CellOption) :
  supported r = true -> (SetCharacter r d).2 = None.
Proof.
  unfold supported, SetCharacter.
  destruct (characterSegments !! r) as [seg|] eqn:Hr; [|discriminate].
  intros _. apply (setSegments_valid seg d (characterSegments_valid _ _ Hr)).
Qed.

Lemma Sanitize_supported (s : list Byte.byte) :
  Forall (fun r => supported r = true) (utf8.runes (Sanitize s)).
Proof.
  rewrite Sanitize_runes. apply Forall_fmap, Forall_forall.
  intros r _. apply sanitizeRune_supported.
Qed.

(** X10.  A sanitized string is accepted everywhere: [SupportsChars]
    answers true and reports nothing for it, and [SetCharacter] succeeds on
    each of its runes, on any display. *)
Theorem Sanitize_accepted {CellOption : Type} (s : list Byte.byte) :
  SupportsChars (Sanitize s) = (true, []) /\
  forall (r : Z) (d : Display CellOption),
    r ∈ utf8.runes (Sanitize s) -> (SetCharacter r d).2 = None.
Proof.
  pose proof (Sanitize_supported s) as Hall. split.
  - unfold SupportsChars, unsupported.
    rewrite unsupported_all_supported by exact Hall. reflexivity.
  - intros r d Hr. apply SetCharacter_supported.
    rewrite Forall_forall in Hall. apply Hall, Hr.
Qed.

(** X11.  [Sanitize] returns its argument unchanged exactly when
    [SupportsChars] accepts it. *)
Theorem Sanitize_fixed_iff_supported (s : list Byte.byte) :
  Sanitize s = s <-> (SupportsChars s).1 = true.
Proof.
  rewrite SupportsChars_true. split.
  - intros Heq. rewrite <- Heq. apply Sanitize_supported.
  - intros Hall.
    assert (Hascii : Forall (fun b => utf8.byte_to_Z b < 128) s).
    { apply runes_ascii_inv. eapply Forall_impl; [exact Hall|].
      intros r Hr%supported_iff. lia. }
    rewrite Sanitize_bytes. rewrite (runes_ascii s Hascii) in Hall |- *.
    rewrite <- !list_fmap_compose.
    rewrite <- (list_fmap_id s) at 2.
    apply list_fmap_ext. intros i b Hb. cbn.
    rewrite Forall_fmap, Forall_forall in Hall.
    assert (Hs : supported (utf8.byte_to_Z b) = true).
    { apply Hall. apply list_elem_of_lookup. eauto. }
    unfold sanitizeRune. rewrite Hs. apply byte_of_to_Z.
Qed.


(** ** More on sizing *)

(** X13.  For an area at the zero point of at least [MinCols] by
    [MinRows] cells, [Required] succeeds; the area it returns starts at the
    zero point, is still at least [MinCols] by [MinRows], is no larger than
    the input on either axis, and is returned unchanged when sized again. *)
Theorem Required_at_origin_contract (w h : Z) :
  MinCols <= w < 2 ^ 31 -> MinRows <= h < 2 ^ 31 ->
  (Required (Rect 0 0 w h)).2 = None /\
  Min (Required (Rect 0 0 w h)).1 = ZP /\
  MinCols <= Dx (Required (Rect 0 0 w h)).1 <= w /\
  MinRows <= Dy (Required (Rect 0 0 w h)).1 <= h /\
  Required (Required (Rect 0 0 w h)).1 = Required (Rect 0 0 w h).
Proof.
  unfold MinCols, MinRows. intros Hw Hh.
  assert (H31 : 2 ^ 31 = 2147483648) by reflexivity.
  destruct (Required_at_origin_stable w h Hw Hh) as (Hdx & Hdy & Hidem).
  split; [|split; [|split; [|split]]]; try exact Hidem.
  - rewrite (Required_at_origin w h Hw Hh). reflexivity.
  - rewrite (Required_at_origin w h Hw Hh). cbn [fst].
    rewrite Rect_canon; [reflexivity | |];
      unfold ratioFactor; Z.to_euclidean_division_equations; lia.
  - split; [|exact Hdx].
    destruct (Required_too_small (Required (Rect 0 0 w h)).1) as [Hsmall _].
    destruct (Z.lt_ge_cases (Dx (Required (Rect 0 0 w h)).1) 6) as [Hlt|Hge];
      [|exact Hge].
    specialize (Hsmall (or_introl Hlt)). rewrite Hidem in Hsmall.
    rewrite (Required_at_origin w h Hw Hh) in Hsmall. discriminate.
  - split; [|exact Hdy].
    destruct (Required_too_small (Required (Rect 0 0 w h)).1) as [Hsmall _].
    destruct (Z.lt_ge_cases (Dy (Required (Rect 0 0 w h)).1) 5) as [Hlt|Hge];
      [|exact Hge].
    specialize (Hsmall (or_intror Hlt)). rewrite Hidem in Hsmall.
    rewrite (Required_at_origin w h Hw Hh) in Hsmall. discriminate.
Qed.

Lemma Required_at_origin_contract_witness :
  Required (Required (Rect 0 0 80 24)).1 = Required (Rect 0 0 80 24).
Proof.
  refine (proj2 (proj2 (proj2 (proj2 (Required_at_origin_contract 80 24 _ _))))).
  - vm_compute. split; [discriminate | reflexivity].
  - vm_compute. split; [discriminate | reflexivity].
Defined.

(** X14.  [Required] fails exactly when the area has fewer than [MinCols]
    columns or fewer than [MinRows] rows; the error carries the area and its
    size, and the rectangle returned with it is the zero rectangle. *)
Theorem Required_fails_iff (cellArea : Rectangle) :
  (is_Some (Required cellArea).2
   <-> Dx cellArea < MinCols \/ Dy cellArea < MinRows) /\
  (forall e, (Required cellArea).2 = Some e ->
     e = ErrAreaTooSmall cellArea (Dx cellArea) (Dy cellArea) /\
     (Required cellArea).1 = ZR).
Proof.
  destruct (Required_too_small cellArea) as [Hsmall Hbig].
  destruct (Z.lt_ge_cases (Dx cellArea) MinCols) as [Hc|Hc];
    [|destruct (Z.lt_ge_cases (Dy cellArea) MinRows) as [Hr|Hr]].
  - rewrite (Hsmall (or_introl Hc)). cbn [fst snd]. split.
    + split; [intros _; left; exact Hc | eauto].
    + intros e [= <-]. split; reflexivity.
  - rewrite (Hsmall (or_intror Hr)). cbn [fst snd]. split.
    + split; [intros _; right; exact Hr | eauto].
    + intros e [= <-]. split; reflexivity.
  - rewrite (Hbig (conj Hc Hr)). split.
    + split; [intros [x Hx]; discriminate | lia].
    + intros e He. discriminate.
Qed.

Lemma Rect_form (x0 y0 x1 y1 : Z) :
  Rect x0 y0 x1 y1
  = mkRectangle (mkPoint (Z.min x0 x1) (Z.min y0 y1))
                (mkPoint (Z.min x0 x1 + Z.abs (x1 - x0))
                         (Z.min y0 y1 + Z.abs (y1 - y0))).
Proof.
  unfold Rect.
  destruct (Z.ltb_spec x1 x0), (Z.ltb_spec y1 y0); do 2 f_equal; lia.
Qed.

(** X15.  For coordinates of ordinary size, the area that [Required]
    returns starts at the same corner as the area it is given, and is well
    formed. *)
Theorem Required_keeps_origin (cellArea : Rectangle) :
  - 2 ^ 28 <= X (Min cellArea) <= 2 ^ 28 ->
  - 2 ^ 28 <= Y (Min cellArea) <= 2 ^ 28 ->
  - 2 ^ 28 <= X (Max cellArea) <= 2 ^ 28 ->
  - 2 ^ 28 <= Y (Max cellArea) <= 2 ^ 28 ->
  (Required cellArea).2 = None ->
  Min (Required cellArea).1 = Min cellArea /\
  0 <= Dx (Required cellArea).1 /\
  0 <= Dy (Required cellArea).1.
Proof.
  destruct cellArea as [[x0 y0] [x1 y1]]. cbn [X Y Min Max].
  intros Hx0 Hy0 Hx1 Hy1 Hok.
  assert (H28 : 2 ^ 28 = 268435456) by reflexivity.
  assert (H31 : 2 ^ 31 = 2147483648) by reflexivity.
  assert (H32 : 2 ^ 32 = 4294967296) by reflexivity.
  assert (Hrange : forall z, - 2 ^ 40 <= z <= 2 ^ 40 -> GoInt.wrap z = z).
  { intros z Hz. apply wrap_small. unfold GoInt.in_range.
    change (2 ^ 40) with 1099511627776 in Hz.
    change (2 ^ 63) with 9223372036854775808. lia. }
  assert (H40 : 2 ^ 40 = 1099511627776) by reflexivity.
  unfold Required in *.
  destruct ((Dx _ <? MinCols) || (Dy _ <? MinRows)); [discriminate|]. clear Hok.
  cbn [X Y Min Max fst]. unfold GoInt.mul, braille.ColMult, braille.RowMult.
  rewrite (Hrange (x1 * 2)), (Hrange (y1 * 4)) by lia.
  rewrite (Rect_form x0 y0 (x1 * 2) (y1 * 4)).
  destruct (WithRatio_largest (Z.min x0 (x1 * 2)) (Z.min y0 (y1 * 4))
              (Z.abs (x1 * 2 - x0)) (Z.abs (y1 * 4 - y0)))
    as (_ & _ & Hdx & Hdy & _); try lia.
  set (adj := area.WithRatio _ aspectRatio) in *.
  unfold GoInt.ceil_div_float64. rewrite !to_float64_small by lia.
  assert (Hc : 0 <= - (- Dx adj / 2) <= Dx adj)
    by (Z.to_euclidean_division_equations; lia).
  assert (Hr : 0 <= - (- Dy adj / 4) <= Dy adj)
    by (Z.to_euclidean_division_equations; lia).
  unfold GoInt.add. rewrite !Hrange by lia.
  rewrite Rect_canon by lia.
  split; [reflexivity|].
  split.
  - unfold Dx at 1, GoInt.sub. cbn [X Y Min Max]. rewrite Hrange by lia. lia.
  - unfold Dy at 1, GoInt.sub. cbn [X Y Min Max]. rewrite Hrange by lia. lia.
Qed.

Lemma Required_keeps_origin_witness :
  Min (Required (Rect 10 10 16 15)).1 = Min (Rect 10 10 16 15).
Proof.
  refine (proj1 (Required_keeps_origin (Rect 10 10 16 15) _ _ _ _ _));
    vm_compute; try reflexivity; split; discriminate.
Defined.

(** ** More on drawing *)

Section MoreDrawFacts.

Context {CellOption Canvas BrailleCanvas SegmentType DiagonalType Attributes : Type}.
Variable env : Collaborators CellOption Canvas BrailleCanvas
                 SegmentType DiagonalType Attributes.

Implicit Types (d : Display CellOption) (bc : BrailleCanvas).

Lemma cellOpts_applyOptions (opts : list (Option CellOption)) d :
  cellOpts (applyOptions opts d)
  = match last opts with
    | Some (CellOpts cOpts) => cOpts
    | None => cellOpts d
    end.
Proof.
  revert d. induction opts as [|[co] opts IH]; intros d; [reflexivity|].
  change (applyOptions (CellOpts co :: opts) d)
    with (applyOptions opts (set (CellOpts co) d)).
  rewrite IH. destruct opts as [|o opts]; [reflexivity|].
  rewrite last_cons_cons.
  destruct (last (o :: opts)) as [[c]|] eqn:Hlast; [reflexivity|].
  apply last_None in Hlast. discriminate.
Qed.

Lemma filter_lit_applyOptions (opts : list (Option CellOption)) d (l : list Segment) :
  filter (fun s => lit (applyOptions opts d) s = true) l
  = filter (fun s => lit d s = true) l.
Proof.
  induction l as [|a l IH]; [reflexivity|].
  assert (Heq : lit (applyOptions opts d) a = lit d a)
    by (unfold lit; rewrite segments_applyOptions; reflexivity).
  rewrite !filter_cons, IH, Heq. reflexivity.
Qed.

(** The loops read the display through [lit] alone. *)
Lemma drawHV_ext d1 d2 attr sOpts args bc :
  (forall s, lit d1 s = lit d2 s) ->
  drawHV env d1 attr sOpts args bc = drawHV env d2 attr sOpts args bc.
Proof.
  intros Hlit. revert bc. induction args as [|[s o] args IH]; intros bc; [reflexivity|].
  cbn [drawHV]. rewrite (Hlit s). destruct (negb (lit d2 s)); [apply IH|].
  destruct (segmentHV env bc _ _ _) as [bc' [err|]]; [reflexivity|].
  rewrite IH. reflexivity.
Qed.

Lemma drawDiagonal_ext d1 d2 attr dsOpts segs bc :
  (forall s, lit d1 s = lit d2 s) ->
  drawDiagonal env d1 attr dsOpts segs bc = drawDiagonal env d2 attr dsOpts segs bc.
Proof.
  intros Hlit. revert bc. induction segs as [|s segs IH]; intros bc; [reflexivity|].
  cbn [drawDiagonal]. rewrite (Hlit s). destruct (negb (lit d2 s)); [apply IH|].
  destruct (segmentDiagonal env bc _ _ _ _) as [bc' [err|]]; [reflexivity|].
  rewrite IH. reflexivity.
Qed.

(** The two orders of [Draw] together hold every valid segment once. *)
Lemma orders_cover_AllSegments :
  straightOrder ++ diagonalOrder ≡ₚ AllSegments.
Proof.
  apply NoDup_Permutation.
  - apply (bool_decide_unpack _). vm_compute. exact I.
  - apply NoDup_fst_map_to_list.
  - intros s.
    assert (Hright : s ∈ AllSegments <-> invalidSegment s = false).
    { unfold AllSegments. rewrite list_elem_of_fmap. split.
      - intros [[k n] [-> Hin]]. apply elem_of_map_to_list in Hin.
        apply segmentNames_keys. eauto.
      - intros [n Hn]%segmentNames_keys. exists (s, n). split; [reflexivity|].
        apply elem_of_map_to_list. exact Hn. }
    rewrite Hright. split.
    + assert (Hall : Forall (fun s => invalidSegment s = false)
                       (straightOrder ++ diagonalOrder)).
      { apply (bool_decide_unpack _). vm_compute. exact I. }
      rewrite Forall_forall in Hall. apply Hall.
    + intros Hs%invalidSegment_false.
      assert (Hall : Forall (fun s => s ∈ straightOrder ++ diagonalOrder) (seqZ 1 16)).
      { apply (bool_decide_unpack _). vm_compute. exact I. }
      rewrite Forall_forall in Hall. apply Hall, elem_of_seqZ.
      unfold segmentUnknown, segmentMax in Hs. lia.
Qed.

Lemma requestSegment_expected d attr :
  requestSegment <$> expectedRequests env d attr
  = filter (fun s => lit d s = true) (straightOrder ++ diagonalOrder).
Proof.
  unfold expectedRequests. rewrite fmap_app, filter_app, <- !list_fmap_compose.
  f_equal; apply list_fmap_id.
Qed.

End MoreDrawFacts.

(** X16.  On a canvas with fewer than [MinCols] columns or fewer than
    [MinRows] rows [Draw] returns the sizing error, wrapped, makes no request
    and leaves the canvas as it was; the options it was given are stored in
    the display all the same. *)
Theorem Draw_too_small
    {CellOption Canvas BrailleCanvas SegmentType DiagonalType Attributes : Type}
    (env : Collaborators CellOption Canvas BrailleCanvas
             SegmentType DiagonalType Attributes)
    (cvs : Canvas) (opts : list (Option CellOption)) (d : Display CellOption) :
  Dx (canvasArea env cvs) < MinCols \/ Dy (canvasArea env cvs) < MinRows ->
  Draw env cvs opts d
  = mkOutcome (applyOptions opts d) cvs []
      (Some (ErrRequired (ErrAreaTooSmall (canvasArea env cvs)
                            (Dx (canvasArea env cvs)) (Dy (canvasArea env cvs))))).
Proof.
  intros Hsmall. unfold Draw, toBraille.
  rewrite (proj1 (Required_too_small (canvasArea env cvs)) Hsmall). reflexivity.
Qed.

Lemma Draw_too_small_witness :
  Draw standIn (Rect 0 0 5 5, []) [CellOpts [1%nat]] (New [])
  = mkOutcome (applyOptions [CellOpts [1%nat]] (New [])) (Rect 0 0 5 5, []) []
      (Some (ErrRequired (ErrAreaTooSmall (Rect 0 0 5 5) 5 5))).
Proof.
  apply (Draw_too_small standIn (Rect 0 0 5 5, []) [CellOpts [1%nat]] (New [])).
  left. vm_compute. reflexivity.
Defined.

(** X17.  Drawing a display with no lit segment makes no request to the
    rasterizers and still copies the blank braille canvas onto the caller's
    canvas: the canvas and the error are those of that copy. *)
Theorem Draw_unlit
    {CellOption Canvas BrailleCanvas SegmentType DiagonalType Attributes : Type}
    (env : Collaborators CellOption Canvas BrailleCanvas
             SegmentType DiagonalType Attributes)
    (cvs : Canvas) (opts : list (Option CellOption)) (d : Display CellOption)
    (bc : BrailleCanvas) (bcAr : Rectangle) :
  toBraille env cvs = inr (bc, bcAr) ->
  (forall s, lit d s = false) ->
  requests (Draw env cvs opts d) = [] /\
  (surface (Draw env cvs opts d), result (Draw env cvs opts d)) = CopyTo env bc cvs.
Proof.
  intros Hbr Hunlit.
  destruct (Draw_ran env cvs opts d bc bcAr Hbr) as (bc' & res & Hran & Hpre & _ & Hres).
  assert (Hexp : expectedRequests env (applyOptions opts d) (newAttributes env bcAr) = []).
  { unfold expectedRequests.
    assert (Hnone : forall l : list Segment,
               filter (fun s => lit (applyOptions opts d) s = true) l = []).
    { intros l. rewrite filter_lit_applyOptions.
      induction l as [|a l IH]; [reflexivity|].
      rewrite filter_cons, decide_False; [exact IH|].
      rewrite Hunlit. discriminate. }
    rewrite !Hnone. reflexivity. }
  rewrite Hexp in Hpre. apply prefix_nil_inv in Hpre.
  rewrite Hpre in Hran |- *. split; [reflexivity|].
  inversion Hran; subst. exact Hres.
Qed.

Lemma Draw_unlit_witness :
  requests (Draw standIn (Rect 0 0 80 24, []) [] (New [])) = [].
Proof.
  refine (proj1 (Draw_unlit standIn (Rect 0 0 80 24, []) [] (New [])
                   (Rect 0 0 58 96, []) (Rect 0 0 57 95) _ _)).
  - vm_compute. reflexivity.
  - intros s. reflexivity.
Defined.

(** X18.  When [Draw] succeeds, the segments it made requests for are
    exactly the lit ones among the 16 valid segments, each with one request:
    no valid segment is left out of the two loops and none is drawn twice. *)
Theorem Draw_covers_lit_segments
    {CellOption Canvas BrailleCanvas SegmentType DiagonalType Attributes : Type}
    (env : Collaborators CellOption Canvas BrailleCanvas
             SegmentType DiagonalType Attributes)
    (cvs : Canvas) (opts : list (Option CellOption)) (d : Display CellOption) :
  result (Draw env cvs opts d) = None ->
  requestSegment <$> requests (Draw env cvs opts d)
  ≡ₚ filter (fun s => lit d s = true) AllSegments.
Proof.
  intros Hok.
  destruct (toBraille env cvs) as [err|[bc bcAr]] eqn:Hbr.
  { unfold Draw in Hok. rewrite Hbr in Hok. discriminate. }
  destruct (Draw_ran env cvs opts d bc bcAr Hbr) as (bc' & res & _ & _ & Hall & Hres).
  destruct res as [err|].
  { destruct Hres as [Herr _]. rewrite Herr in Hok. discriminate. }
  rewrite (Hall eq_refl), requestSegment_expected, filter_lit_applyOptions.
  apply filter_Permutation, orders_cover_AllSegments.
Qed.

Lemma Draw_covers_lit_segments_witness :
  requestSegment <$> requests (Draw standIn (Rect 0 0 80 24, []) []
                                 (SetCharacter (rune "K") (New [])).1)
  ≡ₚ filter (fun s => lit (SetCharacter (rune "K") (New (CellOption := nat) [])).1 s
                       = true) AllSegments.
Proof.
  apply (Draw_covers_lit_segments standIn (Rect 0 0 80 24, []) []
           (SetCharacter (rune "K") (New [])).1).
  vm_compute. reflexivity.
Defined.

(** X19.  [Draw] reads the display only through the lit state of its
    segments and its cell options: two displays that agree on both, such as
    one with a segment never set and one with that segment toggled twice,
    are drawn with the same requests, the same result and the same canvas. *)
Theorem Draw_reads_lit_only
    {CellOption Canvas BrailleCanvas SegmentType DiagonalType Attributes : Type}
    (env : Collaborators CellOption Canvas BrailleCanvas
             SegmentType DiagonalType Attributes)
    (cvs : Canvas) (opts : list (Option CellOption)) (d1 d2 : Display CellOption) :
  (forall s, lit d1 s = lit d2 s) ->
  cellOpts d1 = cellOpts d2 ->
  requests (Draw env cvs opts d1) = requests (Draw env cvs opts d2) /\
  result (Draw env cvs opts d1) = result (Draw env cvs opts d2) /\
  surface (Draw env cvs opts d1) = surface (Draw env cvs opts d2).
Proof.
  intros Hlit Hco.
  assert (Hlit' : forall s, lit (applyOptions opts d1) s = lit (applyOptions opts d2) s).
  { intros s. unfold lit. rewrite !segments_applyOptions. apply Hlit. }
  assert (Hco' : cellOpts (applyOptions opts d1) = cellOpts (applyOptions opts d2)).
  { rewrite !cellOpts_applyOptions, Hco. reflexivity. }
  unfold Draw. rewrite Hco'.
  destruct (toBraille env cvs) as [err|[bc bcAr]]; [repeat split|].
  rewrite (drawHV_ext env _ _ _ _ _ _ Hlit').
  destruct (drawHV env (applyOptions opts d2) _ _ _ _) as [[bc1 reqs1] [err|]];
    [repeat split|].
  rewrite (drawDiagonal_ext env _ _ _ _ _ _ Hlit').
  destruct (drawDiagonal env (applyOptions opts d2) _ _ _ _) as [[bc2 reqs2] [err|]];
    [repeat split|].
  destruct (CopyTo env bc2 cvs). repeat split.
Qed.

Lemma Draw_reads_lit_only_witness :
  requests (Draw standIn (Rect 0 0 80 24, []) []
              (ToggleSegment A1 (ToggleSegment A1 (New [])).1).1)
  = requests (Draw standIn (Rect 0 0 80 24, []) [] (New [])).
Proof.
  refine (proj1 (Draw_reads_lit_only standIn (Rect 0 0 80 24, []) []
                   (ToggleSegment A1 (ToggleSegment A1 (New [])).1).1 (New []) _ _)).
  - intros s. unfold lit. rewrite toggle_twice_keeps_entry.
    destruct (decide (s = A1)) as [->|Hne].
    + rewrite lookup_singleton_eq. reflexivity.
    + rewrite lookup_singleton_ne by congruence. reflexivity.
  - reflexivity.
Defined.

(** ** Resetting the display *)

(** X20.  [Clear] forgets the segments altogether.  Given at least one
    option, or a display without cell options, it leaves exactly the display
    that [New] makes from the same options; and clearing twice is clearing
    once. *)
Theorem Clear_as_New {CellOption : Type}
    (opts : list (Option CellOption)) (d : Display CellOption) :
  opts <> [] \/ cellOpts d = [] ->
  Clear opts d = New opts /\
  Clear opts (Clear opts d) = Clear opts d.
Proof.
  intros Hcase.
  assert (HNew : New opts
                 = mkDisplay ∅ match last opts with
                               | Some (CellOpts cOpts) => cOpts
                               | None => []
                               end).
  { unfold New.
    pose proof (cellOpts_applyOptions opts (mkDisplay (CellOption := CellOption) ∅ [])) as Hco.
    pose proof (segments_applyOptions opts (mkDisplay (CellOption := CellOption) ∅ [])) as Hseg.
    destruct (applyOptions opts _) as [m co]. cbn [segments cellOpts] in *.
    subst m co. reflexivity. }
  assert (HClear : forall d', Clear opts d'
                   = mkDisplay ∅ match last opts with
                                 | Some (CellOpts cOpts) => cOpts
                                 | None => cellOpts d'
                                 end).
  { intros d'. unfold Clear. rewrite cellOpts_applyOptions. reflexivity. }
  rewrite !HClear, HNew. cbn [cellOpts]. split.
  - destruct (last opts) as [[c]|] eqn:Hlast; [reflexivity|].
    destruct Hcase as [Hne|Hco]; [|rewrite Hco; reflexivity].
    apply last_None in Hlast. contradiction.
  - destruct (last opts) as [[c]|]; reflexivity.
Qed.

Lemma Clear_as_New_witness :
  Clear [CellOpts [2%nat]] (SetCharacter (rune "A") (New [CellOpts [1%nat]])).1
  = New [CellOpts [2%nat]].
Proof.
  refine (proj1 (Clear_as_New [CellOpts [2%nat]]
                   (SetCharacter (rune "A") (New [CellOpts [1%nat]])).1 _)).
  left. discriminate.
Defined.
